(** * text_analys: tokenizer, frequency tables and Markov text generator

    A shallow embedding of [text_stats.py] and [generate_text.py].

    Conventions of the embedding.
    - A Python [str] is a [string]; its characters are read as the code
      points 0..255 (Latin-1), on which [str.isalpha] and [str.lower] are
      tabulated below.  Text with other code points is outside the
      embedding: there [str.lower] need not map character to character
      (U+0130 becomes two code points, the second no letter), so what
      depends on lowercasing being one-to-one is stated for ASCII text.
    - A Python [dict] is an association list in insertion order: iterating a
      dict, filtering its keys and sorting its items all depend on that
      order.
    - Counts are [nat]; the requested length is a Python [int], hence [Z].
    - The three sources of effects of [generate_text.py] are explicit
      arguments: the file system, the wall clock and the random source. *)

From Stdlib Require Import List String Ascii Bool Arith ZArith NArith QArith.
From Stdlib Require Import Lia Sorting.Sorted Sorting.Permutation.
Import ListNotations.

Local Open Scope string_scope.
Local Open Scope list_scope.
Local Open Scope nat_scope.

(** ** Python strings *)

Definition code_point (c : ascii) : N := N_of_ascii c.

Definition in_range (lo hi : N) (n : N) : bool := (lo <=? n)%N && (n <=? hi)%N.

(** [str.isalpha] on one character: the Unicode letters below 256. *)
Definition isalpha (c : ascii) : bool :=
  let n := code_point c in
  in_range 65 90 n || in_range 97 122 n
  || (n =? 170)%N || (n =? 181)%N || (n =? 186)%N
  || in_range 192 214 n || in_range 216 246 n || in_range 248 255 n.

(** [str.lower] on one character. *)
Definition lower_char (c : ascii) : ascii :=
  let n := code_point c in
  if in_range 65 90 n || in_range 192 214 n || in_range 216 222 n
  then ascii_of_N (n + 32)
  else c.

Fixpoint lower (s : string) : string :=
  match s with
  | EmptyString => EmptyString
  | String c s' => String (lower_char c) (lower s')
  end.

(** ["".join(filter(f, s))] *)
Fixpoint filter_chars (f : ascii -> bool) (s : string) : string :=
  match s with
  | EmptyString => EmptyString
  | String c s' => if f c then String c (filter_chars f s') else filter_chars f s'
  end.

(** [sep.join(l)] *)
Definition join (sep : string) (l : list string) : string := String.concat sep l.

(** [s.split(sep)] for a one-character separator: every occurrence of the
    separator ends a field, so adjacent separators give empty fields. *)
Fixpoint split (sep : ascii) (s : string) : list string :=
  match s with
  | EmptyString => [EmptyString]
  | String c s' =>
      if Ascii.eqb c sep then EmptyString :: split sep s'
      else match split sep s' with
           | w :: ws => String c w :: ws
           | [] => [String c EmptyString]
           end
  end.

Definition space : ascii := " "%char.

(** ** text_stats.clean_text *)

(** The argument of [clean_text] is a string or a list of strings. *)
Inductive text_arg : Type :=
| TextStr (s : string)
| TextList (l : list string).

Definition nonempty (w : string) : bool := negb (String.eqb w "").

Definition clean_text (text : text_arg) : list string :=
  (* if type(text) == list: text = " ".join(text) *)
  let text := match text with
              | TextList l => join " " l
              | TextStr s => s
              end in
  (* text = "".join(filter(lambda x: x.isalpha() or x == " ", text)) *)
  let text := filter_chars (fun x => isalpha x || Ascii.eqb x space) text in
  (* text = text.lower() *)
  let text := lower text in
  (* text = text.split(" ") *)
  let text := split space text in
  (* text = list(filter(lambda x: x != "", text)) *)
  filter nonempty text.

Definition tokenizer_line : string := "The Cat, sat ON the-mat!".

(** ** Python dicts

    A dict is the list of its items in insertion order.  Keys are compared
    with a boolean equality that reflects Leibniz equality. *)

Class Key (K : Type) : Type := {
  keq : K -> K -> bool;
  keq_spec : forall a b : K, reflect (a = b) (keq a b)
}.

#[export] Instance string_key : Key string :=
  {| keq := String.eqb; keq_spec := String.eqb_spec |}.

#[export] Instance ascii_key : Key ascii :=
  {| keq := Ascii.eqb; keq_spec := Ascii.eqb_spec |}.

Definition pair_eqb {A B : Type} `{Key A} `{Key B} (x y : A * B) : bool :=
  keq (fst x) (fst y) && keq (snd x) (snd y).

Lemma pair_eqb_spec {A B : Type} `{Key A} `{Key B} (x y : A * B) :
  reflect (x = y) (pair_eqb x y).
Proof.
  destruct x as [a b], y as [a' b']; unfold pair_eqb; simpl.
  destruct (keq_spec a a'); destruct (keq_spec b b'); simpl;
    constructor; congruence.
Qed.

#[export] Instance pair_key {A B : Type} `{Key A} `{Key B} : Key (A * B) :=
  {| keq := pair_eqb; keq_spec := pair_eqb_spec |}.

Definition dict (K V : Type) : Type := list (K * V).

Section Dict.
Context {K V : Type} `{Key K}.

(** [d[k]]; [None] stands for KeyError. *)
Fixpoint dict_get (k : K) (d : dict K V) : option V :=
  match d with
  | [] => None
  | (k', v) :: d' => if keq k k' then Some v else dict_get k d'
  end.

(** [k in d] *)
Definition dict_in (k : K) (d : dict K V) : bool :=
  match dict_get k d with
  | Some _ => true
  | None => false
  end.

(** [d[k] = v]: a present key keeps its place, a new key goes last. *)
Fixpoint dict_set (k : K) (v : V) (d : dict K V) : dict K V :=
  match d with
  | [] => [(k, v)]
  | (k', v') :: d' =>
      if keq k k' then (k, v) :: d' else (k', v') :: dict_set k v d'
  end.

(** Iterating a dict yields its keys. *)
Definition dict_keys (d : dict K V) : list K := map fst d.

Definition dict_values (d : dict K V) : list V := map snd d.
End Dict.

(** The counting idiom of both programs:
    [if k not in d: d[k] = 1  else: d[k] += 1]. *)
Definition count_up {K : Type} `{Key K} (k : K) (d : dict K nat) : dict K nat :=
  match dict_get k d with
  | None => dict_set k 1 d
  | Some c => dict_set k (c + 1) d
  end.

(** ** Exceptions *)

Inductive exn : Type :=
| ValueError
| KeyError.

Inductive result (A : Type) : Type :=
| Ok (a : A)
| Raise (e : exn).
Arguments Ok {A} a.
Arguments Raise {A} e.

Definition bind {A B : Type} (r : result A) (k : A -> result B) : result B :=
  match r with
  | Ok a => k a
  | Raise e => Raise e
  end.

Notation "x <- r ;; k" := (bind r (fun x => k))
  (at level 61, r at next level, right associativity).

(** [[f(x) for x in l]] where [f] may raise. *)
Fixpoint map_result {A B : Type} (f : A -> result B) (l : list A)
  : result (list B) :=
  match l with
  | [] => Ok []
  | x :: l' => y <- f x ;; ys <- map_result f l' ;; Ok (y :: ys)
  end.

(** ** numpy.random.choice

    The library function has the signature
    [choice(a, size=None, replace=True, p=None)].  It is modelled for a
    one-dimensional [a] and [size = 1], as the distribution of the one
    element it returns.  An empty [a] raises ValueError.  When [p] is given
    it must have the length of [a], be non-negative and sum to one, and the
    element at position [i] has probability [p[i]]; when [p] is [None] all
    positions are equally likely.  For a single sample [replace] makes no
    difference: with replacement the index is [randint(0, len(a))], without
    it is the head of a random permutation of the indices. *)

(** A finite distribution: outcomes with their probabilities. *)
Definition dist (A : Type) : Type := list (A * Q).

(** The probability of [w] under a distribution. *)
Fixpoint prob (w : string) (d : dist string) : Q :=
  match d with
  | [] => 0%Q
  | (x, q) :: d' => if String.eqb x w then (q + prob w d')%Q else prob w d'
  end.

Definition np_random_choice (a : list string) (replace : bool)
    (p : option (list Q)) : result (dist string) :=
  let pop_size := List.length a in
  if pop_size =? 0 then Raise ValueError
  else
    match p with
    | Some p =>
        if negb (List.length p =? pop_size) then Raise ValueError
        else if existsb (fun q => (Qnum q <? 0)%Z) p then Raise ValueError
        else if negb (Qeq_bool (fold_right Qplus 0%Q p) 1%Q) then Raise ValueError
        else Ok (combine a p)
    | None => Ok (map (fun x => (x, (1 # Pos.of_nat pop_size)%Q)) a)
    end.

(** The outcomes that can occur: those of positive probability. *)
Definition support (d : dist string) : list string :=
  map fst (filter (fun xq => (0 <? Qnum (snd xq))%Z) d).

(** The outcome a raw sample of the random source selects. *)
Definition realise (d : dist string) (sample : nat) : string :=
  nth (sample mod List.length (support d)) (support d) "".

(** The draw as the spec words it: each candidate with probability
    weight / sum of all weights. *)
Definition spec_weighted_dist (a : list string) (weights : list nat)
  : dist string :=
  let total := fold_right Nat.add 0 weights in
  map (fun xw => (fst xw, (Z.of_nat (snd xw) # Pos.of_nat total)%Q))
      (combine a weights).

(** Truth value of a Python list. *)
Definition truthy {A : Type} (l : list A) : bool :=
  match l with
  | [] => false
  | _ :: _ => true
  end.

(** ** generate_text.py: the generation loop *)

Record state : Type := mkState {
  current_word : string;
  generated_text : list string;
  word_count : dict string nat;
  wordpair_count : dict (string * string) nat
}.

(** Lines 63-68: [for i in range(len(input_text)-1)]. *)
Definition scan_successors (input_text : list string) (current_word : string)
    (wordpair_count : dict (string * string) nat) : dict (string * string) nat :=
  fold_left
    (fun wpc i =>
       if String.eqb (nth i input_text "") current_word
       then count_up (current_word, nth (i + 1) input_text "") wpc
       else wpc)
    (seq 0 (List.length input_text - 1))
    wordpair_count.

(** Lines 61-72: the statistics of the current word, built when the word is
    not yet a key of [word_count]. *)
Definition build_statistics (input_text : list string) (st : state) : state :=
  let cw := current_word st in
  let wpc :=
    if negb (dict_in cw (word_count st))
    then scan_successors input_text cw (wordpair_count st)
    else wordpair_count st in
  let wc :=
    if negb (dict_in cw (word_count st))
    then dict_set cw (count_occ string_dec input_text cw) (word_count st)
    else word_count st in
  mkState cw (generated_text st) wc wpc.

(** Lines 75-76. *)
Definition candidates_of (st : state) : list string :=
  let candidates :=
    filter (fun x => String.eqb (fst x) (current_word st))
           (dict_keys (wordpair_count st)) in
  map snd candidates.

(** Line 77. *)
Definition weights_of (st : state) (candidates : list string)
  : result (list nat) :=
  map_result
    (fun cand =>
       match dict_get (current_word st, cand) (wordpair_count st) with
       | Some c => Ok c
       | None => Raise KeyError
       end)
    candidates.

(** Lines 61-80: one iteration of the loop body, for one raw sample of the
    random source.  Line 78 is [np.random.choice(candidates, 1, weights)[0]]:
    three positional arguments, so the weights are the parameter [replace]
    (as a truth value) and [p] keeps its default [None]. *)
Definition body (input_text : list string) (st : state) (sample : nat)
  : result state :=
  let st := build_statistics input_text st in
  let candidates := candidates_of st in
  weights <- weights_of st candidates ;;
  drawn <- np_random_choice candidates (truthy weights) None ;;
  let next := realise drawn sample in
  Ok (mkState next (generated_text st ++ [next])
              (word_count st) (wordpair_count st)).

(** The distribution of the word drawn by one iteration started in [st]. *)
Definition draw_dist (input_text : list string) (st : state)
  : result (dist string) :=
  let st := build_statistics input_text st in
  let candidates := candidates_of st in
  weights <- weights_of st candidates ;;
  np_random_choice candidates (truthy weights) None.

(** Lines 54-56. *)
Definition init_state (current_word : string) : state :=
  mkState current_word [current_word] [] [].

(** The states the loop can be in: the initial one, and any state one more
    iteration leads to, whatever the random source returns. *)
Inductive reachable (input_text : list string) (seed : string) : state -> Prop :=
| reach_init : reachable input_text seed (init_state seed)
| reach_body (st st' : state) (sample : nat) :
    reachable input_text seed st ->
    body input_text st sample = Ok st' ->
    reachable input_text seed st'.

(** How the loop of lines 59-80 ends. *)
Inductive loop_end : Type :=
| Finished (st : state) (ticks : nat)
| Uncaught (e : exn) (st : state)
| OutOfFuel.

(** What a run of the program shows to the user. *)
Inductive outcome : Type :=
| Usage
| FileUnreadable
| SeedMissing (message : string)
| Traceback (e : exn)
| Generated (generated_text : list string) (time_limit_message : bool)
| Diverged.

Definition dquote : string := String (ascii_of_nat 34) EmptyString.

(** Line 50, printed with [sep=""]. *)
Definition seed_missing_message (current_word : string) : string :=
  "The word " ++ dquote ++ current_word ++ dquote ++ " does not occur in the file.".

Section Generator.
(** [clock k] is the value of [time()-start_time < 60] the [k]-th time the
    program evaluates it; [rand k] is the raw sample of the random source
    in iteration [k]. *)
Variable clock : nat -> bool.
Variable rand : nat -> nat.

(** Lines 59-80.  The clock is read only when the length test holds
    ([and] is short-circuit), once per iteration, so the iteration number
    is the number of clock readings made so far. *)
Fixpoint loop (fuel : nat) (input_text : list string) (n_words : Z)
    (ticks : nat) (st : state) : loop_end :=
  match fuel with
  | O => OutOfFuel
  | S fuel' =>
      if (Z.of_nat (List.length (generated_text st)) <? n_words)%Z then
        if clock ticks then
          match body input_text st (rand ticks) with
          | Ok st' => loop fuel' input_text n_words (S ticks) st'
          | Raise e => Uncaught e st
          end
        else Finished st (S ticks)
      else Finished st ticks
  end.

(** Lines 48-86, for a corpus, a start word and a requested length. *)
Definition generate (input_text : list string) (current_word : string)
    (n_words : Z) : outcome :=
  if negb (existsb (String.eqb current_word) input_text)
  then SeedMissing (seed_missing_message current_word)
  else
    match loop (S (Z.to_nat n_words)) input_text n_words 0
               (init_state current_word) with
    | Finished st ticks => Generated (generated_text st) (negb (clock ticks))
    | Uncaught e _ => Traceback e
    | OutOfFuel => Diverged
    end.
End Generator.

(** ** int(str)

    Surrounding whitespace is stripped; then an optional sign and decimal
    digits, where single underscores may separate digits.  More than
    [int_max_str_digits] digits are refused.  The whitespace [int] strips
    is tab to carriage return (9..13), the space (32), U+0085 and U+00A0;
    the separators 28..31 are not stripped and make the string no
    integer. *)
Definition isspace (c : ascii) : bool :=
  let n := code_point c in
  in_range 9 13 n || (n =? 32)%N || (n =? 133)%N || (n =? 160)%N.

Fixpoint lstrip (s : string) : string :=
  match s with
  | EmptyString => EmptyString
  | String c s' => if isspace c then lstrip s' else s
  end.

Fixpoint rstrip (s : string) : string :=
  match s with
  | EmptyString => EmptyString
  | String c s' =>
      match rstrip s' with
      | EmptyString => if isspace c then EmptyString else String c EmptyString
      | t => String c t
      end
  end.

Definition strip (s : string) : string := rstrip (lstrip s).

Definition digit_value (c : ascii) : option Z :=
  let n := code_point c in
  if in_range 48 57 n then Some (Z.of_N n - 48)%Z else None.

Definition int_max_str_digits : nat := 4300.

Fixpoint parse_digits (s : string) (acc : Z) (digits : nat) (after_digit : bool)
  : option Z :=
  match s with
  | EmptyString =>
      if after_digit && (digits <=? int_max_str_digits) then Some acc else None
  | String c s' =>
      if Ascii.eqb c "_"%char then
        if after_digit then parse_digits s' acc digits false else None
      else
        match digit_value c with
        | Some d => parse_digits s' (10 * acc + d)%Z (S digits) true
        | None => None
        end
  end.

Definition py_int (s : string) : option Z :=
  match strip s with
  | String c s' =>
      if Ascii.eqb c "+"%char then parse_digits s' 0%Z 0 false
      else if Ascii.eqb c "-"%char
           then option_map Z.opp (parse_digits s' 0%Z 0 false)
           else parse_digits (String c s') 0%Z 0 false
  | EmptyString => None
  end.

(** ** generate_text.py: the command line *)

Section Main.
(** [fs name] is what [text_stats.open_file(name)] returns: the lines of
    the file, or [None] when it cannot be read (the program quits). *)
Variable fs : string -> option (list string).
Variable clock : nat -> bool.
Variable rand : nat -> nat.

(** Lines 28-46, then the generator.  A missing argument (IndexError) and
    a length [int] refuses (ValueError) both end in the usage text. *)
Definition main (argv : list string) : outcome :=
  match nth_error argv 1, nth_error argv 2, nth_error argv 3 with
  | Some file_name, Some start, Some number =>
      let current_word := lower start in
      match py_int number with
      | Some n_words =>
          match fs file_name with
          | Some lines =>
              let input_text := clean_text (TextList lines) in
              generate clock rand input_text current_word n_words
          | None => FileUnreadable
          end
      | None => Usage
      end
  | _, _, _ => Usage
  end.
End Main.

(** ** text_stats.get_frequencies *)

(** [look_for] is the string "all" or a list of words. *)
Inductive look_for_arg : Type :=
| LookAll
| LookOnly (ws : list string).

(** [look_for == "all" or word in look_for] *)
Definition looked_for (look_for : look_for_arg) (word : string) : bool :=
  match look_for with
  | LookAll => true
  | LookOnly ws => existsb (String.eqb word) ws
  end.

(** [sorted(items, key=lambda item: item[1], reverse=True)]: a stable sort,
    larger counts first, items of equal count in their original order. *)
Fixpoint insert_desc {K : Type} (x : K * nat) (l : list (K * nat))
  : list (K * nat) :=
  match l with
  | [] => [x]
  | y :: l' => if snd x <? snd y then y :: insert_desc x l' else x :: y :: l'
  end.

Definition sorted_desc {K : Type} (items : list (K * nat)) : list (K * nat) :=
  fold_right insert_desc [] items.

(** [dict(items)] *)
Definition dict_of_items {K V : Type} `{Key K} (items : list (K * V))
  : dict K V :=
  fold_left (fun d kv => dict_set (fst kv) (snd kv) d) items [].

(** Lines 88-95. *)
Definition count_words (words : list string) (look_for : look_for_arg)
  : dict string nat :=
  fold_left
    (fun wordcount word =>
       if looked_for look_for word then count_up word wordcount else wordcount)
    words [].

(** Lines 103-111. *)
Definition count_wordpairs (words : list string) (look_for : look_for_arg)
  : dict (string * string) nat :=
  fold_left
    (fun wordpaircount i =>
       if looked_for look_for (nth i words "")
       then count_up (nth i words "", nth (i + 1) words "") wordpaircount
       else wordpaircount)
    (seq 0 (List.length words - 1)) [].

(** Lines 116-121. *)
Definition count_letters (words : list string) : dict ascii nat :=
  fold_left (fun lettercount letter => count_up letter lettercount)
            (list_ascii_of_string (join "" words)) [].

(** The value returned: three dicts, or two when [letter_freq] is false. *)
Inductive frequencies : Type :=
| WithLetters (lettercount : dict ascii nat) (wordcount : dict string nat)
    (wordpaircount : dict (string * string) nat)
| WithoutLetters (wordcount : dict string nat)
    (wordpaircount : dict (string * string) nat).

Definition get_frequencies (words : list string) (look_for : look_for_arg)
    (letter_freq : bool) : frequencies :=
  let wordcount := dict_of_items (sorted_desc (count_words words look_for)) in
  let wordpaircount :=
    dict_of_items (sorted_desc (count_wordpairs words look_for)) in
  if letter_freq then
    let lettercount := dict_of_items (sorted_desc (count_letters words)) in
    WithLetters lettercount wordcount wordpaircount
  else WithoutLetters wordcount wordpaircount.

Definition lettercount_of (f : frequencies) : dict ascii nat :=
  match f with
  | WithLetters lc _ _ => lc
  | WithoutLetters _ _ => []
  end.

Definition wordcount_of (f : frequencies) : dict string nat :=
  match f with
  | WithLetters _ wc _ => wc
  | WithoutLetters wc _ => wc
  end.

Definition wordpaircount_of (f : frequencies) : dict (string * string) nat :=
  match f with
  | WithLetters _ _ wpc => wpc
  | WithoutLetters _ wpc => wpc
  end.

(** A ranked table: counts never increase along the dict. *)
Definition descending {K : Type} (d : dict K nat) : Prop :=
  StronglySorted (fun x y => snd y <= snd x) d.

(** ** The example corpus of the spec *)

Definition example_corpus : list string :=
  ["the"; "cat"; "sat"; "on"; "the"; "mat"; "the"; "cat"; "ran"].

(** ** Quantities the invariants speak of *)

(** The sum of the counts recorded for the pairs that start with [w]. *)
Definition transitions_from (w : string) (d : dict (string * string) nat) : nat :=
  fold_right Nat.add 0
    (dict_values (filter (fun kv => String.eqb (fst (fst kv)) w) d)).

(** [b] immediately follows [a] somewhere in the text. *)
Definition follows (text : list string) (a b : string) : Prop :=
  exists l1 l2, text = l1 ++ a :: b :: l2.

(** The scan of lines 63-68 by recursion on the text. *)
Fixpoint scan_list (text : list string) (cw : string)
    (d : dict (string * string) nat) : dict (string * string) nat :=
  match text with
  | x :: (y :: _) as rest =>
      scan_list rest cw (if String.eqb x cw then count_up (cw, y) d else d)
  | _ => d
  end.

(** The number of occurrences of [cw] that have a successor. *)
Fixpoint followed_occurrences (text : list string) (cw : string) : nat :=
  match text with
  | x :: (y :: _) as rest =>
      (if String.eqb x cw then 1 else 0) + followed_occurrences rest cw
  | _ => 0
  end.

(** [later text st st']: [st'] is [st] after some more iterations. *)
Inductive later (input_text : list string) : state -> state -> Prop :=
| later_now (st : state) : later input_text st st
| later_body (st st' st'' : state) (sample : nat) :
    later input_text st st' ->
    body input_text st' sample = Ok st'' ->
    later input_text st st''.

(** What every reachable state satisfies. *)
Record invariant (text : list string) (st : state) : Prop := mkInvariant {
  inv_visited : forall w c,
    dict_get w (word_count st) = Some c ->
    c = count_occ string_dec text w
    /\ transitions_from w (wordpair_count st) = followed_occurrences text w;
  inv_unvisited : forall w,
    dict_get w (word_count st) = None ->
    transitions_from w (wordpair_count st) = 0;
  inv_pairs : forall k c,
    dict_get k (wordpair_count st) = Some c ->
    1 <= c /\ follows text (fst k) (snd k);
  inv_last : last (generated_text st) "" = current_word st
}.

(** The fixed inputs of the examples. *)
Definition always_in_time (k : nat) : bool := true.
Definition first_index (k : nat) : nat := 0.
Definition one_file (lines : list string) (name : string)
  : option (list string) :=
  if String.eqb name "corpus.txt" then Some lines else None.

(** Some iterations in a row, one raw sample each. *)
Fixpoint iterate_body (text : list string) (samples : list nat) (st : state)
  : result state :=
  match samples with
  | [] => Ok st
  | sample :: samples' =>
      st' <- body text st sample ;; iterate_body text samples' st'
  end.

(** ** Predicates on strings *)

Fixpoint string_forall (P : ascii -> bool) (s : string) : bool :=
  match s with
  | EmptyString => true
  | String c s' => P c && string_forall P s'
  end.

(** A lowercase letter: a letter that [str.lower] leaves as it is. *)
Definition lower_letter (c : ascii) : bool :=
  isalpha c && Ascii.eqb (lower_char c) c.

(** A word: at least one character, lowercase letters only. *)
Definition is_word (w : string) : bool :=
  nonempty w && string_forall lower_letter w.

(** ** Quantities the frequency tables are measured by *)

(** The count a table holds for a key, zero for an absent key. *)
Definition count_of {K : Type} `{Key K} (k : K) (d : dict K nat) : nat :=
  match dict_get k d with
  | Some c => c
  | None => 0
  end.

(** The sum of all counts of a table. *)
Definition total_count {K : Type} (d : dict K nat) : nat :=
  fold_right Nat.add 0 (dict_values d).

(** Every count of the table is at least one. *)
Definition positive {K : Type} (d : dict K nat) : Prop :=
  forall kv, In kv d -> 1 <= snd kv.

(** The number of places where [b] immediately follows [a]. *)
Fixpoint pair_occurrences (text : list string) (a b : string) : nat :=
  match text with
  | x :: (y :: _) as rest =>
      (if String.eqb x a && String.eqb y b then 1 else 0)
      + pair_occurrences rest a b
  | _ => 0
  end.

(** The distinct words of a text, in the order of their first occurrence. *)
Definition first_occurrences (words : list string) : list string :=
  rev (nodup string_dec (rev words)).

(** ** text_stats.py: the report of the command line (lines 159-194)

    What is printed is modelled as the list of the printed lines that carry
    data; the fixed heading lines are left out. *)

Inductive report_line : Type :=
| SummaryTotal (words : nat)
| SummaryUnique (words : nat)
| LetterRow (letter : ascii) (frequency : nat)
| WordRow (word : string) (occurrences : nat)
| SuccessorRow (subword : string) (count : nat)
| Blank.

(** [d[k]], raising KeyError for an absent key. *)
Definition lookup {K V : Type} `{Key K} (k : K) (d : dict K V) : result V :=
  match dict_get k d with
  | Some v => Ok v
  | None => Raise KeyError
  end.

(** Lines 183-189: the inner loop, left by [break] when the countdown
    reaches zero. *)
Fixpoint successor_rows (n_subwords : Z) (common_pairs : list (string * string))
    (wordpaircount : dict (string * string) nat) : result (list report_line) :=
  match common_pairs with
  | [] => Ok []
  | wordpair :: rest =>
      count <- lookup wordpair wordpaircount ;;
      let n_subwords := (n_subwords - 1)%Z in
      if (n_subwords =? 0)%Z then Ok [SuccessorRow (snd wordpair) count]
      else
        rows <- successor_rows n_subwords rest wordpaircount ;;
        Ok (SuccessorRow (snd wordpair) count :: rows)
  end.

(** Lines 177-194: the outer loop over [wordcount.items()]. *)
Fixpoint word_rows (n_words : Z) (items : list (string * nat))
    (wordcount : dict string nat)
    (wordpaircount : dict (string * string) nat) : result (list report_line) :=
  match items with
  | [] => Ok []
  | word :: rest =>
      occurrences <- lookup (fst word) wordcount ;;
      let n_subwords := 3%Z in
      let common_pairs :=
        filter (fun key => String.eqb (fst key) (fst word))
               (dict_keys wordpaircount) in
      subrows <- successor_rows n_subwords common_pairs wordpaircount ;;
      let n_words := (n_words - 1)%Z in
      if (n_words =? 0)%Z then Ok (WordRow (fst word) occurrences :: subrows)
      else
        rows <- word_rows n_words rest wordcount wordpaircount ;;
        Ok (WordRow (fst word) occurrences :: subrows ++ Blank :: rows)
  end.

(** Lines 159-194, for the cleaned words of the input file. *)
Definition report (words : list string) : result (list report_line) :=
  match get_frequencies words LookAll true with
  | WithLetters lettercount wordcount wordpaircount =>
      let summary :=
        [SummaryTotal (List.length words);
         SummaryUnique (List.length wordcount)] in
      let letters :=
        map (fun i => LetterRow (fst i) (snd i))
            (combine (dict_keys lettercount) (dict_values lettercount)) in
      rows <- word_rows 5 wordcount wordcount wordpaircount ;;
      Ok (summary ++ letters ++ rows)
  | WithoutLetters _ _ => Raise ValueError
  end.

(** The lines of one word of the report: the word with its count, then its
    first three pairs of the pair table. *)
Definition word_block (wordpaircount : dict (string * string) nat)
    (word : string * nat) : list report_line :=
  WordRow (fst word) (snd word)
  :: map (fun key => SuccessorRow (snd key) (count_of key wordpaircount))
         (firstn 3 (filter (fun key => String.eqb (fst key) (fst word))
                           (dict_keys wordpaircount))).

(** A character of the ASCII range, and a text made of such characters. *)
Definition ascii_char (c : ascii) : bool := (code_point c <? 128)%N.

Definition ascii_text (text : text_arg) : bool :=
  match text with
  | TextStr s => string_forall ascii_char s
  | TextList l => forallb (string_forall ascii_char) l
  end.

(** One of the letters a to z. *)
Definition az_letter (c : ascii) : bool := in_range 97 122 (code_point c).

(** * Theorems *)

(** C2 (as the code has it): [clean_text] maps the line
    "The Cat, sat ON the-mat!" to the tokens the, cat, sat, on, themat:
    the comma, the hyphen and the exclamation mark are removed and case is
    folded, and since only spaces separate words, the two words around the
    removed hyphen become the single token themat.  The result is the same
    whether the line is passed as a string or as a one-element list. *)
Theorem clean_text_example :
  clean_text (TextStr tokenizer_line) = ["the"; "cat"; "sat"; "on"; "themat"]
  /\ clean_text (TextList [tokenizer_line]) = ["the"; "cat"; "sat"; "on"; "themat"].
Proof. split; vm_compute; reflexivity. Qed.

(** C2 (as the spec states it) fails: the token list is not
    the, cat, sat, on, the, mat. *)
Lemma clean_text_example_not_split :
  clean_text (TextStr tokenizer_line) <> ["the"; "cat"; "sat"; "on"; "the"; "mat"]
  /\ clean_text (TextList [tokenizer_line]) <> ["the"; "cat"; "sat"; "on"; "the"; "mat"].
Proof. split; vm_compute; discriminate. Qed.


(** ** Dicts *)

Section DictFacts.
Context {K V : Type} `{Key K}.

Lemma keq_refl (k : K) : keq k k = true.
Proof. destruct (keq_spec k k); congruence. Qed.

Lemma keq_neq (k k' : K) : k <> k' -> keq k k' = false.
Proof. intros N; destruct (keq_spec k k'); congruence. Qed.

Lemma dict_get_set_same (k : K) (v : V) (d : dict K V) :
  dict_get k (dict_set k v d) = Some v.
Proof.
  induction d as [|[k' v'] d IH]; simpl.
  - now rewrite keq_refl.
  - destruct (keq_spec k k') as [->|N]; simpl.
    + now rewrite keq_refl.
    + now rewrite (keq_neq _ _ N).
Qed.

Lemma dict_get_set_other (k k0 : K) (v : V) (d : dict K V) :
  k0 <> k -> dict_get k0 (dict_set k v d) = dict_get k0 d.
Proof.
  intros N; induction d as [|[k' v'] d IH]; simpl.
  - now rewrite (keq_neq _ _ N).
  - destruct (keq_spec k k') as [->|N']; simpl.
    + now rewrite (keq_neq _ _ N).
    + now rewrite IH.
Qed.

Lemma dict_get_in_keys (k : K) (d : dict K V) :
  In k (dict_keys d) -> exists v, dict_get k d = Some v.
Proof.
  induction d as [|[k' v'] d IH]; simpl; [tauto|].
  intros [E|I].
  - subst; rewrite keq_refl; eauto.
  - destruct (keq k k'); eauto.
Qed.

Lemma dict_get_some_in (k : K) (v : V) (d : dict K V) :
  dict_get k d = Some v -> In (k, v) d.
Proof.
  induction d as [|[k' v'] d IH]; simpl; [discriminate|].
  destruct (keq_spec k k') as [->|N].
  - intros [= ->]; now left.
  - intros G; right; auto.
Qed.

Lemma dict_get_none_keys (k : K) (d : dict K V) :
  dict_get k d = None -> ~ In k (dict_keys d).
Proof.
  intros G I; destruct (dict_get_in_keys _ _ I) as [v E]; congruence.
Qed.

Lemma dict_in_true (k : K) (d : dict K V) :
  dict_in k d = true <-> exists v, dict_get k d = Some v.
Proof.
  unfold dict_in; destruct (dict_get k d); split; eauto; try discriminate.
  intros [v E]; discriminate.
Qed.

Lemma dict_in_false (k : K) (d : dict K V) :
  dict_in k d = false <-> dict_get k d = None.
Proof. unfold dict_in; destruct (dict_get k d); split; congruence. Qed.

(** Assigning to an absent key appends the item. *)
Lemma dict_set_absent (k : K) (v : V) (d : dict K V) :
  ~ In k (dict_keys d) -> dict_set k v d = d ++ [(k, v)].
Proof.
  induction d as [|[k' v'] d IH]; simpl; [reflexivity|].
  intros N; destruct (keq_spec k k') as [->|N'].
  - exfalso; apply N; now left.
  - f_equal; apply IH; tauto.
Qed.

(** Assigning to a present key keeps the keys and their order. *)
Lemma dict_set_present_keys (k : K) (v : V) (d : dict K V) :
  In k (dict_keys d) -> dict_keys (dict_set k v d) = dict_keys d.
Proof.
  induction d as [|[k' v'] d IH]; simpl; [tauto|].
  intros I; destruct (keq_spec k k') as [->|N']; simpl; [reflexivity|].
  f_equal; apply IH; destruct I; congruence.
Qed.

Lemma dict_set_keys_nodup (k : K) (v : V) (d : dict K V) :
  NoDup (dict_keys d) -> NoDup (dict_keys (dict_set k v d)).
Proof.
  intros ND.
  destruct (dict_get k d) as [v0|] eqn:G.
  - rewrite dict_set_present_keys; auto.
    apply dict_get_some_in in G.
    change k with (fst (k, v0)); now apply in_map.
  - apply dict_get_none_keys in G.
    rewrite dict_set_absent by assumption.
    unfold dict_keys; rewrite map_app; simpl.
    apply NoDup_app; [ assumption | repeat constructor; simpl; tauto | ].
    intros x Hx [<-|[]]; auto.
Qed.
End DictFacts.

Lemma count_up_keys_nodup {K : Type} `{Key K} (k : K) (d : dict K nat) :
  NoDup (dict_keys d) -> NoDup (dict_keys (count_up k d)).
Proof. unfold count_up; destruct (dict_get k d); apply dict_set_keys_nodup. Qed.

(** ** The sum of the counts of one word's pairs *)

Lemma transitions_from_cons (w : string) (k : string * string) (v : nat)
    (d : dict (string * string) nat) :
  transitions_from w ((k, v) :: d)
  = (if String.eqb (fst k) w then v else 0) + transitions_from w d.
Proof.
  unfold transitions_from; simpl.
  destruct (String.eqb (fst k) w); reflexivity.
Qed.

Lemma transitions_from_app (w : string) (d1 d2 : dict (string * string) nat) :
  transitions_from w (d1 ++ d2) = transitions_from w d1 + transitions_from w d2.
Proof.
  induction d1 as [|[k v] d1 IH]; [reflexivity|].
  rewrite <- app_comm_cons, !transitions_from_cons, IH; lia.
Qed.

Lemma transitions_from_increment (w : string) (k : string * string) (c : nat)
    (d : dict (string * string) nat) :
  dict_get k d = Some c ->
  transitions_from w (dict_set k (c + 1) d)
  = transitions_from w d + (if String.eqb (fst k) w then 1 else 0).
Proof.
  induction d as [|[k' v'] d IH]; cbn [dict_get dict_set]; [discriminate|].
  destruct (keq_spec k k') as [<-|N].
  - intros [= ->]; rewrite !transitions_from_cons.
    destruct (String.eqb (fst k) w); lia.
  - intros G; rewrite !transitions_from_cons, (IH G); lia.
Qed.

Lemma transitions_from_count_up (w : string) (k : string * string)
    (d : dict (string * string) nat) :
  transitions_from w (count_up k d)
  = transitions_from w d + (if String.eqb (fst k) w then 1 else 0).
Proof.
  unfold count_up; destruct (dict_get k d) as [c|] eqn:G.
  - now apply transitions_from_increment.
  - rewrite dict_set_absent by now apply dict_get_none_keys.
    rewrite transitions_from_app, transitions_from_cons.
    change (transitions_from w []) with 0; lia.
Qed.

(** ** The scan of the corpus *)

Lemma fold_left_map_S {A : Type} (f : A -> nat -> A) (l : list nat) (a : A) :
  fold_left f (map S l) a = fold_left (fun a i => f a (S i)) l a.
Proof. revert a; induction l as [|i l IH]; intros a; simpl; auto. Qed.

Lemma scan_list_cons (x y : string) (t : list string) (cw : string)
    (d : dict (string * string) nat) :
  scan_list (x :: y :: t) cw d
  = scan_list (y :: t) cw (if String.eqb x cw then count_up (cw, y) d else d).
Proof. reflexivity. Qed.

Lemma scan_successors_cons (x y : string) (t : list string) (cw : string)
    (d : dict (string * string) nat) :
  scan_successors (x :: y :: t) cw d
  = scan_successors (y :: t) cw
      (if String.eqb x cw then count_up (cw, y) d else d).
Proof.
  unfold scan_successors.
  replace (List.length (x :: y :: t) - 1) with (S (List.length (y :: t) - 1))
    by (simpl; lia).
  rewrite <- cons_seq, <- seq_shift.
  cbn [fold_left]; rewrite fold_left_map_S.
  reflexivity.
Qed.

(** The index loop of the source is the recursion on the text. *)
Lemma scan_successors_scan_list (text : list string) (cw : string)
    (d : dict (string * string) nat) :
  scan_successors text cw d = scan_list text cw d.
Proof.
  revert d; induction text as [|x t IH]; intros d; [reflexivity|].
  destruct t as [|y t]; [reflexivity|].
  rewrite scan_successors_cons, scan_list_cons; apply IH.
Qed.

Lemma followed_occurrences_cons (x y : string) (t : list string) (cw : string) :
  followed_occurrences (x :: y :: t) cw
  = (if String.eqb x cw then 1 else 0) + followed_occurrences (y :: t) cw.
Proof. reflexivity. Qed.

Lemma transitions_from_scan (text : list string) (w cw : string)
    (d : dict (string * string) nat) :
  transitions_from w (scan_list text cw d)
  = transitions_from w d
    + (if String.eqb cw w then followed_occurrences text cw else 0).
Proof.
  revert d; induction text as [|x t IH]; intros d.
  - simpl; destruct (String.eqb cw w); lia.
  - destruct t as [|y t].
    + simpl; destruct (String.eqb cw w); lia.
    + rewrite scan_list_cons, IH, followed_occurrences_cons.
      destruct (String.eqb x cw).
      * rewrite transitions_from_count_up; simpl fst.
        destruct (String.eqb cw w); lia.
      * destruct (String.eqb cw w); lia.
Qed.

(** A last occurrence is counted as an occurrence, not as a transition. *)
Lemma followed_occurrences_le_count (text : list string) (w : string) :
  followed_occurrences text w <= count_occ string_dec text w.
Proof.
  induction text as [|x t IH]; [simpl; lia|].
  destruct t as [|y t]; [simpl; lia|].
  rewrite followed_occurrences_cons.
  change (count_occ string_dec (x :: y :: t) w)
    with (if string_dec x w then S (count_occ string_dec (y :: t) w)
          else count_occ string_dec (y :: t) w).
  destruct (String.eqb_spec x w), (string_dec x w); try congruence; lia.
Qed.

Lemma dict_get_count_up_same {K : Type} `{Key K} (k : K) (d : dict K nat) :
  dict_get k (count_up k d)
  = Some (match dict_get k d with Some c => c + 1 | None => 1 end).
Proof. unfold count_up; destruct (dict_get k d); apply dict_get_set_same. Qed.

Lemma dict_get_count_up_other {K : Type} `{Key K} (k k0 : K) (d : dict K nat) :
  k0 <> k -> dict_get k0 (count_up k d) = dict_get k0 d.
Proof.
  intros N; unfold count_up; destruct (dict_get k d);
    now apply dict_get_set_other.
Qed.

Lemma follows_head (x y : string) (t : list string) : follows (x :: y :: t) x y.
Proof. now exists [], t. Qed.

Lemma follows_tail (x : string) (t : list string) (a b : string) :
  follows t a b -> follows (x :: t) a b.
Proof. intros (l1 & l2 & ->); now exists (x :: l1), l2. Qed.

(** The scan records only pairs of adjacent words, each at least once. *)
Lemma scan_list_pairs (P : string * string -> Prop) (text : list string)
    (cw : string) (d : dict (string * string) nat) :
  (forall k c, dict_get k d = Some c -> 1 <= c /\ P k) ->
  (forall y, follows text cw y -> P (cw, y)) ->
  forall k c, dict_get k (scan_list text cw d) = Some c -> 1 <= c /\ P k.
Proof.
  revert d; induction text as [|x t IH]; intros d Hd HP; [exact Hd|].
  destruct t as [|y t]; [exact Hd|].
  rewrite scan_list_cons; apply IH.
  - destruct (String.eqb_spec x cw) as [->|_]; [|exact Hd].
    intros k c G.
    destruct (keq_spec k (cw, y)) as [->|N].
    + rewrite dict_get_count_up_same in G; injection G as <-.
      split; [destruct (dict_get (cw, y) d); lia|].
      apply HP, follows_head.
    + rewrite dict_get_count_up_other in G by assumption; eauto.
  - intros z F; apply HP, follows_tail, F.
Qed.

(** The scan for [cw] leaves the pairs of every other word alone. *)
Lemma scan_list_other (text : list string) (cw : string)
    (d : dict (string * string) nat) (k : string * string) :
  fst k <> cw -> dict_get k (scan_list text cw d) = dict_get k d.
Proof.
  intros N; revert d; induction text as [|x t IH]; intros d; [reflexivity|].
  destruct t as [|y t]; [reflexivity|].
  rewrite scan_list_cons, IH.
  destruct (String.eqb x cw); [|reflexivity].
  apply dict_get_count_up_other; intros ->; now apply N.
Qed.

(** ** One iteration *)

Lemma build_statistics_visited (text : list string) (st : state) :
  dict_in (current_word st) (word_count st) = true ->
  build_statistics text st = st.
Proof.
  intros V; unfold build_statistics; rewrite V; simpl; now destruct st.
Qed.

Lemma build_statistics_unvisited (text : list string) (st : state) :
  dict_in (current_word st) (word_count st) = false ->
  build_statistics text st
  = mkState (current_word st) (generated_text st)
      (dict_set (current_word st)
         (count_occ string_dec text (current_word st)) (word_count st))
      (scan_list text (current_word st) (wordpair_count st)).
Proof.
  intros V; unfold build_statistics; rewrite V; simpl.
  now rewrite scan_successors_scan_list.
Qed.

Lemma build_statistics_marks (text : list string) (st : state) :
  dict_in (current_word st) (word_count (build_statistics text st)) = true.
Proof.
  destruct (dict_in (current_word st) (word_count st)) eqn:V.
  - now rewrite build_statistics_visited.
  - rewrite build_statistics_unvisited by assumption; simpl.
    apply dict_in_true; eexists; apply dict_get_set_same.
Qed.

Lemma build_statistics_invariant (text : list string) (st : state) :
  invariant text st -> invariant text (build_statistics text st).
Proof.
  intros [Iv Iu Ip Il].
  destruct (dict_in (current_word st) (word_count st)) eqn:V.
  - rewrite build_statistics_visited by assumption; now constructor.
  - rewrite build_statistics_unvisited by assumption.
    apply dict_in_false in V.
    constructor; simpl; [ | | | assumption ].
    + intros w c G; rewrite transitions_from_scan.
      destruct (String.eqb_spec (current_word st) w) as [<-|N].
      * rewrite dict_get_set_same in G; injection G as <-.
        rewrite (Iu _ V); auto.
      * rewrite dict_get_set_other in G by congruence.
        destruct (Iv _ _ G) as [-> ->]; split; [reflexivity|lia].
    + intros w G; rewrite transitions_from_scan.
      destruct (String.eqb_spec (current_word st) w) as [<-|N].
      * now rewrite dict_get_set_same in G.
      * rewrite dict_get_set_other in G by congruence.
        rewrite (Iu _ G); lia.
    + apply (scan_list_pairs (fun k => follows text (fst k) (snd k)));
        [exact Ip | auto].
Qed.

(** Without [p] every position of [a] has the same positive mass. *)
Lemma np_random_choice_uniform (a : list string) (replace : bool)
    (d : dist string) :
  np_random_choice a replace None = Ok d ->
  a <> []
  /\ d = map (fun x => (x, (1 # Pos.of_nat (List.length a))%Q)) a
  /\ support d = a.
Proof.
  unfold np_random_choice.
  destruct (Nat.eqb_spec (List.length a) 0) as [|N]; [discriminate|].
  intros [= <-]; split; [now destruct a|]; split; [reflexivity|].
  unfold support; generalize (Pos.of_nat (List.length a)); intros n.
  clear N; induction a as [|x a IH]; [reflexivity|].
  cbn [map filter snd Qnum]; change (0 <? 1)%Z with true.
  cbn [map fst]; f_equal; exact IH.
Qed.

Lemma np_random_choice_in (a : list string) (replace : bool) (d : dist string)
    (sample : nat) :
  np_random_choice a replace None = Ok d -> In (realise d sample) a.
Proof.
  intros C; apply np_random_choice_uniform in C as (N & _ & S).
  unfold realise; rewrite S; apply nth_In, Nat.mod_upper_bound.
  now destruct a.
Qed.

Lemma np_random_choice_empty (replace : bool) (p : option (list Q)) :
  np_random_choice [] replace p = Raise ValueError.
Proof. reflexivity. Qed.

Lemma candidates_of_in (st : state) (x : string) :
  In x (candidates_of st) <->
  In (current_word st, x) (dict_keys (wordpair_count st)).
Proof.
  unfold candidates_of; rewrite in_map_iff; split.
  - intros ([a b] & <- & I); apply filter_In in I as [I E].
    simpl in E; apply String.eqb_eq in E; now subst.
  - intros I; exists (current_word st, x); split; [reflexivity|].
    apply filter_In; split; [assumption|apply String.eqb_refl].
Qed.

(** What a successful iteration has done. *)
Lemma body_ok (text : list string) (st st' : state) (sample : nat) :
  body text st sample = Ok st' ->
  let st1 := build_statistics text st in
  In (current_word st') (candidates_of st1)
  /\ st' = mkState (current_word st')
             (generated_text st ++ [current_word st'])
             (word_count st1) (wordpair_count st1).
Proof.
  unfold body; cbv zeta.
  destruct (weights_of _ _) as [ws|e]; [|discriminate]; cbn [bind].
  destruct (np_random_choice _ _ _) as [drawn|e] eqn:C; [|discriminate].
  cbn [bind]; intros [= <-]; split; [|reflexivity].
  cbn [current_word]; eapply np_random_choice_in, C.
Qed.

Lemma body_invariant (text : list string) (st st' : state) (sample : nat) :
  invariant text st -> body text st sample = Ok st' -> invariant text st'.
Proof.
  intros I B; apply body_ok in B as [_ ->].
  destruct (build_statistics_invariant text st I) as [Iv Iu Ip Il].
  constructor; simpl; auto.
  apply last_last.
Qed.

Lemma init_invariant (text : list string) (seed : string) :
  invariant text (init_state seed).
Proof. constructor; simpl; auto; discriminate. Qed.

Lemma reachable_invariant (text : list string) (seed : string) (st : state) :
  reachable text seed st -> invariant text st.
Proof.
  induction 1 as [|st st' sample _ IH B];
    [apply init_invariant | eapply body_invariant; eauto].
Qed.

Lemma follows_followed (text : list string) (a b : string) :
  follows text a b -> 0 < followed_occurrences text a.
Proof.
  intros (l1 & l2 & ->); induction l1 as [|x l1 IH].
  - simpl app; rewrite followed_occurrences_cons, String.eqb_refl; lia.
  - rewrite <- app_comm_cons.
    destruct (l1 ++ a :: b :: l2) as [|y t]; [simpl in IH; lia|].
    rewrite followed_occurrences_cons; lia.
Qed.

(** A word every occurrence of which is the last token is followed by
    nothing. *)
Lemma never_followed (text : list string) (a : string) :
  followed_occurrences text a = 0 -> forall b, ~ follows text a b.
Proof. intros Z b F; apply follows_followed in F; lia. Qed.

(** ** When an iteration succeeds *)

Lemma map_result_ok {A B : Type} (f : A -> result B) (l : list A) :
  (forall x, In x l -> exists y, f x = Ok y) ->
  exists ys, map_result f l = Ok ys /\ List.length ys = List.length l.
Proof.
  induction l as [|x l IH]; intros All; [now exists []|].
  destruct (All x (or_introl eq_refl)) as [y Ey].
  destruct IH as (ys & Eys & Len); [intros z Hz; apply All; now right|].
  exists (y :: ys); cbn [map_result]; rewrite Ey, Eys; simpl; auto.
Qed.

(** Line 77 never raises KeyError: every candidate is the second component
    of a recorded pair of the current word. *)
Lemma weights_of_candidates (st : state) :
  exists ws,
    weights_of st (candidates_of st) = Ok ws
    /\ List.length ws = List.length (candidates_of st).
Proof.
  apply map_result_ok; intros x I.
  apply candidates_of_in, dict_get_in_keys in I as [c G].
  exists c; now rewrite G.
Qed.

Lemma no_candidates_no_transitions (st : state) :
  candidates_of st = [] ->
  transitions_from (current_word st) (wordpair_count st) = 0.
Proof.
  unfold candidates_of, transitions_from, dict_keys, dict_values.
  generalize (current_word st) as w; intros w.
  induction (wordpair_count st) as [|[k v] d IH]; [reflexivity|].
  cbn [map filter fst]; destruct (String.eqb (fst k) w); [discriminate|].
  exact IH.
Qed.

(** An iteration whose current word has a successor in the corpus draws a
    word, whatever the sample. *)
Lemma body_succeeds (text : list string) (seed : string) (st : state)
    (sample : nat) (b : string) :
  reachable text seed st ->
  follows text (current_word st) b ->
  exists st', body text st sample = Ok st'.
Proof.
  intros R F.
  pose proof (build_statistics_invariant text st (reachable_invariant _ _ _ R))
    as [Iv _ _ _].
  pose proof (build_statistics_marks text st) as V.
  apply dict_in_true in V as [c G].
  destruct (Iv _ _ G) as [_ T].
  apply follows_followed in F.
  unfold body; cbv zeta.
  destruct (weights_of_candidates (build_statistics text st)) as (ws & -> & Len).
  cbn [bind]; unfold np_random_choice.
  destruct (Nat.eqb_spec (List.length (candidates_of (build_statistics text st))) 0)
    as [Z|N].
  - apply length_zero_iff_nil, no_candidates_no_transitions in Z.
    change (current_word (build_statistics text st)) with (current_word st) in Z.
    lia.
  - cbn [bind]; eauto.
Qed.

Lemma iterate_body_later (text : list string) (samples : list nat)
    (st st' : state) :
  iterate_body text samples st = Ok st' -> later text st st'.
Proof.
  assert (G : forall st0, later text st0 st ->
                iterate_body text samples st = Ok st' -> later text st0 st').
  { revert st; induction samples as [|sample samples IH]; intros st st0 L.
    - now intros [= <-].
    - cbn [iterate_body]; destruct (body text st sample) as [st1|e] eqn:B;
        [|discriminate].
      cbn [bind]; apply IH; eapply later_body; eauto. }
  apply G; constructor.
Qed.

Lemma later_reachable (text : list string) (seed : string) (st st' : state) :
  reachable text seed st -> later text st st' -> reachable text seed st'.
Proof.
  intros R L; induction L as [|st st1 st2 sample _ IH B]; [assumption|].
  exact (reach_body _ _ _ _ _ (IH R) B).
Qed.

Lemma iterate_body_reachable (text : list string) (seed : string)
    (samples : list nat) (st : state) :
  iterate_body text samples (init_state seed) = Ok st ->
  reachable text seed st.
Proof.
  intros E; eapply later_reachable;
    [apply reach_init | eapply iterate_body_later, E].
Qed.

(** An iteration leaves the statistics of every visited word as they are. *)
Lemma body_keeps_visited (text : list string) (st st' : state) (sample : nat)
    (w : string) (c : nat) :
  dict_get w (word_count st) = Some c ->
  body text st sample = Ok st' ->
  dict_get w (word_count st') = Some c
  /\ forall x, dict_get (w, x) (wordpair_count st')
               = dict_get (w, x) (wordpair_count st).
Proof.
  intros G B; apply body_ok in B as [_ ->]; cbn [word_count wordpair_count].
  destruct (dict_in (current_word st) (word_count st)) eqn:V.
  - rewrite build_statistics_visited by assumption; auto.
  - rewrite build_statistics_unvisited by assumption; simpl.
    apply dict_in_false in V.
    assert (N : w <> current_word st) by congruence.
    split.
    + now rewrite dict_get_set_other.
    + intros x; now apply scan_list_other.
Qed.

Lemma body_visited_unchanged (text : list string) (st st' : state)
    (sample : nat) :
  dict_in (current_word st) (word_count st) = true ->
  body text st sample = Ok st' ->
  word_count st' = word_count st /\ wordpair_count st' = wordpair_count st.
Proof.
  intros V B; apply body_ok in B as [_ ->]; cbn [word_count wordpair_count].
  now rewrite build_statistics_visited.
Qed.

(** ** From iterations to runs *)

(** The word an iteration draws is recorded as a successor of the current
    word and follows it in the corpus. *)
Lemma body_draws_successor (text : list string) (st st' : state)
    (sample : nat) :
  invariant text st ->
  body text st sample = Ok st' ->
  (exists c, dict_get (current_word st, current_word st')
                      (wordpair_count st') = Some c /\ 0 < c)
  /\ follows text (current_word st) (current_word st').
Proof.
  intros I B.
  pose proof (build_statistics_invariant text st I) as [_ _ Ip _].
  apply body_ok in B as [C E]; cbv zeta in C.
  apply candidates_of_in, dict_get_in_keys in C as [c G].
  change (current_word (build_statistics text st)) with (current_word st) in G.
  destruct (Ip _ _ G) as [Pos F].
  split; [|exact F].
  exists c; split; [|lia].
  rewrite E; exact G.
Qed.

Lemma follows_snoc (g : list string) (x a b : string) :
  follows (g ++ [x]) a b -> follows g a b \/ (a = last g "" /\ b = x).
Proof.
  intros (l1 & l2 & E); revert E.
  induction l2 as [|y l2 _] using rev_ind; intros E.
  - right.
    replace (l1 ++ [a; b]) with ((l1 ++ [a]) ++ [b]) in E
      by (rewrite <- app_assoc; reflexivity).
    apply app_inj_tail in E as [-> ->].
    split; [now rewrite last_last|reflexivity].
  - left.
    replace (l1 ++ a :: b :: l2 ++ [y]) with ((l1 ++ a :: b :: l2) ++ [y]) in E
      by (rewrite <- app_assoc; reflexivity).
    apply app_inj_tail in E as [-> _]; now exists l1, l2.
Qed.

(** In every reachable state the generated text is a chain of words each of
    which follows its predecessor somewhere in the corpus. *)
Lemma reachable_chain (text : list string) (seed : string) (st : state) :
  reachable text seed st ->
  forall a b, follows (generated_text st) a b -> follows text a b.
Proof.
  induction 1 as [|st st' sample R IH B]; intros a b F.
  - destruct F as (l1 & l2 & E); simpl in E.
    destruct l1 as [|? [|? ?]]; discriminate E.
  - pose proof (reachable_invariant _ _ _ R) as I.
    destruct (body_draws_successor _ _ _ _ I B) as [_ Fw].
    apply body_ok in B as [_ E]; rewrite E in F; cbn [generated_text] in F.
    apply follows_snoc in F as [F|[-> ->]]; [now apply IH|].
    now rewrite (inv_last _ _ I).
Qed.

(** The loop only passes through reachable states. *)
Lemma loop_reachable (clock : nat -> bool) (rand : nat -> nat)
    (text : list string) (seed : string) (n_words : Z) (fuel ticks : nat)
    (st : state) :
  reachable text seed st ->
  match loop clock rand fuel text n_words ticks st with
  | Finished st' _ => reachable text seed st'
  | Uncaught e st' =>
      reachable text seed st' /\ e = ValueError
      /\ forall b, ~ follows text (current_word st') b
  | OutOfFuel => True
  end.
Proof.
  revert ticks st; induction fuel as [|fuel IH]; intros ticks st R;
    cbn [loop]; [exact I|].
  destruct (Z.of_nat (List.length (generated_text st)) <? n_words)%Z;
    [|assumption].
  destruct (clock ticks); [|assumption].
  destruct (body text st (rand ticks)) as [st'|e] eqn:B.
  - apply IH; eapply reach_body; eauto.
  - split; [assumption|].
    assert (NF : forall b, ~ follows text (current_word st) b).
    { intros b F.
      destruct (body_succeeds text seed st (rand ticks) b R F) as [st' B'].
      congruence. }
    split; [|assumption].
    revert B; unfold body; cbv zeta.
    destruct (weights_of_candidates (build_statistics text st)) as (ws & -> & _).
    cbn [bind]; unfold np_random_choice.
    destruct (_ =? 0); cbn [bind]; [now intros [= <-]|discriminate].
Qed.

(** The text a run prints starts with the start word and is a chain of
    adjacent words of the corpus. *)
Lemma generate_chain (clock : nat -> bool) (rand : nat -> nat)
    (text : list string) (w : string) (n_words : Z) (g : list string)
    (flag : bool) :
  generate clock rand text w n_words = Generated g flag ->
  forall a b, follows g a b -> follows text a b.
Proof.
  unfold generate.
  destruct (negb (existsb (String.eqb w) text)); [discriminate|].
  pose proof (loop_reachable clock rand text w n_words
                (S (Z.to_nat n_words)) 0 _ (reach_init text w)) as R.
  destruct (loop _ _ _ _ _ _ _) as [st ticks|e st|]; try discriminate.
  intros [= <- _]; now apply (reachable_chain text w).
Qed.

(** ** The claims about the generation loop *)

(** C6: the statistics of a word are built once.  After an iteration whose
    current word is [w], the word is a key of [word_count]; in every later
    state [word_count[w]] and every [wordpair_count] entry whose first
    component is [w] are what that iteration left; and a later iteration
    whose current word is [w] again builds nothing: it changes neither
    dict. *)
Theorem statistics_built_once (text : list string) (st0 st1 st : state)
    (sample : nat) :
  body text st0 sample = Ok st1 ->
  later text st1 st ->
  let w := current_word st0 in
  (exists c, dict_get w (word_count st1) = Some c)
  /\ dict_get w (word_count st) = dict_get w (word_count st1)
  /\ (forall x, dict_get (w, x) (wordpair_count st)
                = dict_get (w, x) (wordpair_count st1))
  /\ (current_word st = w ->
      build_statistics text st = st
      /\ forall sample' st',
           body text st sample' = Ok st' ->
           word_count st' = word_count st
           /\ wordpair_count st' = wordpair_count st).
Proof.
  intros B L w.
  assert (V : exists c, dict_get w (word_count st1) = Some c).
  { apply dict_in_true; apply body_ok in B as [_ ->]; cbn [word_count].
    apply build_statistics_marks. }
  destruct V as [c V].
  assert (K : dict_get w (word_count st) = Some c
              /\ forall x, dict_get (w, x) (wordpair_count st)
                           = dict_get (w, x) (wordpair_count st1)).
  { clear B; induction L as [|st1 st2 st3 sample' _ IH B']; [auto|].
    destruct (IH V) as [G P].
    destruct (body_keeps_visited _ _ _ _ _ _ G B') as [G' P'].
    split; [assumption|]; intros x; now rewrite P'. }
  destruct K as [G P].
  split; [eauto|]; split; [congruence|]; split; [assumption|].
  intros E.
  assert (V' : dict_in (current_word st) (word_count st) = true).
  { rewrite E; apply dict_in_true; eauto. }
  split; [now apply build_statistics_visited|].
  intros sample' st'; now apply body_visited_unchanged.
Qed.

(** The corpus the, cat, sat, on, the, ...: started at the, with the first
    candidate drawn each time, the fifth current word is the again. *)
Lemma statistics_built_once_witness :
  exists st1 st,
    body example_corpus (init_state "the") 0 = Ok st1
    /\ iterate_body example_corpus [0; 0; 0] st1 = Ok st
    /\ current_word st = "the"
    /\ dict_get "the" (word_count st) = Some 3
    /\ build_statistics example_corpus st = st.
Proof.
  eexists; eexists.
  split; [vm_compute; reflexivity|].
  split; [vm_compute; reflexivity|].
  split; [reflexivity|].
  split; [reflexivity|].
  refine (proj1 (proj2 (proj2 (proj2
    (statistics_built_once example_corpus (init_state "the") _ _ 0 _ _))) _)).
  - vm_compute; reflexivity.
  - apply (iterate_body_later example_corpus [0; 0; 0]); vm_compute; reflexivity.
  - reflexivity.
Defined.

(** C7: for every visited word, [word_count[word]] is the number of
    occurrences of the word in the corpus, and the counts of the
    [wordpair_count] entries whose first component is the word add up to at
    most that number: they add up to the number of occurrences that have a
    successor. *)
Theorem frequency_bounds_transitions (text : list string) (seed : string)
    (st : state) (w : string) (c : nat) :
  reachable text seed st ->
  dict_get w (word_count st) = Some c ->
  c = count_occ string_dec text w
  /\ transitions_from w (wordpair_count st) <= c
  /\ transitions_from w (wordpair_count st) = followed_occurrences text w.
Proof.
  intros R G; destruct (reachable_invariant _ _ _ R) as [Iv _ _ _].
  destruct (Iv _ _ G) as [-> T]; split; [reflexivity|]; split; [|assumption].
  rewrite T; apply followed_occurrences_le_count.
Qed.

Lemma frequency_bounds_transitions_witness :
  exists st,
    iterate_body ["b"; "a"; "b"] [0; 0] (init_state "b") = Ok st
    /\ dict_get "b" (word_count st) = Some 2
    /\ 2 = count_occ string_dec ["b"; "a"; "b"] "b"
    /\ transitions_from "b" (wordpair_count st) <= 2
    /\ transitions_from "b" (wordpair_count st) = 1.
Proof.
  eexists; split; [vm_compute; reflexivity|].
  split; [reflexivity|].
  apply (frequency_bounds_transitions ["b"; "a"; "b"] "b" _ "b" 2).
  - apply (iterate_body_reachable _ _ [0; 0]); vm_compute; reflexivity.
  - reflexivity.
Defined.

(** C8: the word an iteration appends has a recorded transition count of at
    least one from the preceding word (the last word of the text generated
    so far), and it immediately follows that word somewhere in the
    corpus. *)
Theorem successor_was_observed (text : list string) (seed : string)
    (st st' : state) (sample : nat) :
  reachable text seed st ->
  body text st sample = Ok st' ->
  last (generated_text st) "" = current_word st
  /\ generated_text st' = generated_text st ++ [current_word st']
  /\ (exists c, dict_get (current_word st, current_word st')
                         (wordpair_count st') = Some c /\ 0 < c)
  /\ follows text (current_word st) (current_word st').
Proof.
  intros R B.
  pose proof (reachable_invariant _ _ _ R) as I.
  split; [apply I|].
  split; [|exact (body_draws_successor _ _ _ _ I B)].
  apply body_ok in B as [_ E]; rewrite E at 1; reflexivity.
Qed.

Lemma successor_was_observed_witness :
  exists st',
    body example_corpus (init_state "the") 1 = Ok st'
    /\ current_word st' = "mat"
    /\ generated_text st' = ["the"; "mat"]
    /\ follows example_corpus "the" "mat".
Proof.
  eexists; split; [vm_compute; reflexivity|].
  split; [reflexivity|].
  refine ((fun H => conj (proj1 (proj2 H)) (proj2 (proj2 (proj2 H))))
            (successor_was_observed example_corpus "the" (init_state "the") _ 1
               (reach_init _ _) _)).
  vm_compute; reflexivity.
Defined.

(** C10: when the current word has no successor anywhere in the corpus and
    the loop enters its body (the text is shorter than requested and the
    time is not up), the candidate list and the weight list are both empty,
    the draw raises ValueError, and the loop ends with that uncaught
    exception: the text generated so far is not returned. *)
Theorem empty_candidates_raise (text : list string) (seed : string)
    (st : state) :
  reachable text seed st ->
  (forall b, ~ follows text (current_word st) b) ->
  let st1 := build_statistics text st in
  candidates_of st1 = []
  /\ weights_of st1 (candidates_of st1) = Ok []
  /\ (forall sample, body text st sample = Raise ValueError)
  /\ (forall clock rand fuel n_words ticks,
        (Z.of_nat (List.length (generated_text st)) < n_words)%Z ->
        clock ticks = true ->
        loop clock rand (S fuel) text n_words ticks st
        = Uncaught ValueError st).
Proof.
  intros R NF st1.
  pose proof (reachable_invariant _ _ _ R) as I.
  pose proof (build_statistics_invariant text st I) as [_ _ Ip _].
  assert (C : candidates_of st1 = []).
  { destruct (candidates_of st1) as [|x l] eqn:E; [reflexivity|].
    assert (In x (candidates_of st1)) as J by (rewrite E; now left).
    apply candidates_of_in, dict_get_in_keys in J as [c G].
    destruct (Ip _ _ G) as [_ F]; exfalso; exact (NF _ F). }
  assert (B : forall sample, body text st sample = Raise ValueError).
  { intros sample; unfold body; fold st1; cbv zeta; rewrite C; reflexivity. }
  split; [assumption|]; split; [now rewrite C|]; split; [assumption|].
  intros clock rand fuel n_words ticks Len T; cbn [loop].
  apply Z.ltb_lt in Len; rewrite Len, T, B; reflexivity.
Qed.

(** The last word of the example corpus, ran, occurs nowhere else. *)
Lemma empty_candidates_raise_witness :
  body example_corpus (init_state "ran") 0 = Raise ValueError
  /\ generate always_in_time first_index example_corpus "ran" 2
     = Traceback ValueError.
Proof.
  split; [|reflexivity].
  refine (proj1 (proj2 (proj2
    (empty_candidates_raise example_corpus "ran" (init_state "ran")
       (reach_init _ _) _))) 0).
  apply never_followed; reflexivity.
Defined.

(** ** The claims about the command line and the first step *)

Lemma existsb_eqb_in (w : string) (text : list string) :
  existsb (String.eqb w) text = true <-> In w text.
Proof.
  rewrite existsb_exists; split.
  - intros (x & I & E); apply String.eqb_eq in E; now subst.
  - intros I; exists w; split; [assumption|apply String.eqb_refl].
Qed.

(** With a requested length of at most one the loop ends at its first test,
    before the clock is read. *)
Lemma loop_stops_at_once (clock : nat -> bool) (rand : nat -> nat)
    (fuel : nat) (text : list string) (n_words : Z) (w : string) :
  (n_words <= 1)%Z ->
  loop clock rand (S fuel) text n_words 0 (init_state w)
  = Finished (init_state w) 0.
Proof.
  intros Le; cbn [loop init_state generated_text List.length].
  destruct (Z.ltb_spec (Z.of_nat 1) n_words); [lia|reflexivity].
Qed.

(** The fuel [generate] gives the loop is enough: the loop always ends. *)
Lemma loop_fuel_enough (clock : nat -> bool) (rand : nat -> nat)
    (text : list string) (n_words : Z) (fuel ticks : nat) (st : state) :
  (n_words - Z.of_nat (List.length (generated_text st)) <= Z.of_nat fuel)%Z ->
  loop clock rand (S fuel) text n_words ticks st <> OutOfFuel.
Proof.
  revert ticks st; induction fuel as [|fuel IH]; intros ticks st Le;
    cbn [loop];
    destruct (Z.ltb_spec (Z.of_nat (List.length (generated_text st))) n_words)
      as [Lt|_]; try discriminate; [lia|].
  destruct (clock ticks); [|discriminate].
  destruct (body text st (rand ticks)) as [st'|e] eqn:B; [|discriminate].
  apply IH.
  apply body_ok in B as [_ ->]; cbn [generated_text].
  rewrite length_app; simpl List.length; lia.
Qed.

Lemma generate_ends (clock : nat -> bool) (rand : nat -> nat)
    (text : list string) (w : string) (n_words : Z) :
  generate clock rand text w n_words <> Diverged.
Proof.
  unfold generate.
  destruct (negb (existsb (String.eqb w) text)); [discriminate|].
  destruct (loop _ _ _ _ _ _ _) eqn:L; try discriminate.
  exfalso; revert L; apply loop_fuel_enough.
  cbn [init_state generated_text List.length]; lia.
Qed.

(** C5: for a word of the corpus as the start word and a requested length
    of one, the loop body never runs and the generated text is that one
    word. *)
Theorem generate_one_word (clock : nat -> bool) (rand : nat -> nat)
    (text : list string) (w : string) :
  In w text ->
  generate clock rand text w 1 = Generated [w] (negb (clock 0))
  /\ forall fuel,
       loop clock rand (S fuel) text 1 0 (init_state w)
       = Finished (init_state w) 0.
Proof.
  intros I; split; [|intros fuel; apply loop_stops_at_once; lia].
  unfold generate.
  apply existsb_eqb_in in I; rewrite I; cbn [negb].
  rewrite loop_stops_at_once by lia; reflexivity.
Qed.

Lemma generate_one_word_witness :
  generate always_in_time first_index example_corpus "cat" 1
  = Generated ["cat"] false.
Proof.
  refine (proj1 (generate_one_word always_in_time first_index
                   example_corpus "cat" _)).
  simpl; tauto.
Defined.

(** C4: for a start word that does not occur in the corpus the program
    prints the message that names the word and quits; the dicts are never
    created and no word is generated, whatever the requested length. *)
Theorem unknown_seed_stops (clock : nat -> bool) (rand : nat -> nat)
    (text : list string) (w : string) (n_words : Z) :
  ~ In w text ->
  generate clock rand text w n_words = SeedMissing (seed_missing_message w)
  /\ seed_missing_message w
     = ("The word " ++ dquote ++ w ++ dquote ++ " does not occur in the file.")%string.
Proof.
  intros N; split; [|reflexivity].
  unfold generate.
  destruct (existsb (String.eqb w) text) eqn:E; [|reflexivity].
  apply existsb_eqb_in in E; contradiction.
Qed.

Lemma unknown_seed_stops_witness :
  generate always_in_time first_index example_corpus "dog" 5
  = SeedMissing (seed_missing_message "dog").
Proof.
  refine (proj1 (unknown_seed_stops always_in_time first_index
                   example_corpus "dog" 5 _)).
  intros I; simpl in I; repeat (destruct I as [I|I]; [discriminate I|]).
  exact I.
Defined.

(** The same at the command line: the start word is lowercased first. *)
Lemma main_unknown_seed (fs : string -> option (list string))
    (clock : nat -> bool) (rand : nat -> nat)
    (prog file_name start number : string) (lines : list string) (n_words : Z) :
  py_int number = Some n_words ->
  fs file_name = Some lines ->
  ~ In (lower start) (clean_text (TextList lines)) ->
  main fs clock rand [prog; file_name; start; number]
  = SeedMissing (seed_missing_message (lower start)).
Proof.
  intros P F N; unfold main; cbn [nth_error]; rewrite P, F.
  now apply unknown_seed_stops.
Qed.

(** C3 (what the code does): the only check of the length argument is
    [int(sys.argv[3])]; the usage text asks for a positive integer, but no
    line tests the sign.  With the lengths 0 and -3, a readable file and a
    start word of the corpus, the run is no error: the loop body never runs
    and a generated text of one word, the start word, is printed. *)
Lemma nonpositive_length_generates :
  py_int "0" = Some 0%Z
  /\ py_int "-3" = Some (-3)%Z
  /\ main (one_file ["The cat sat."]) always_in_time first_index
          ["generate_text.py"; "corpus.txt"; "The"; "0"]
     = Generated ["the"] false
  /\ main (one_file ["The cat sat."]) always_in_time first_index
          ["generate_text.py"; "corpus.txt"; "The"; "-3"]
     = Generated ["the"] false.
Proof. repeat split; vm_compute; reflexivity. Qed.

(** ** The draw *)

(** The words single draws return are the words of the distribution, and
    every word of the candidate list is returned for some sample. *)
Lemma realise_support (a : list string) (replace : bool) (d : dist string)
    (x : string) :
  np_random_choice a replace None = Ok d ->
  (exists sample, realise d sample = x) <-> In x a.
Proof.
  intros C; split.
  - intros [sample <-]; eapply np_random_choice_in, C.
  - intros I; apply np_random_choice_uniform in C as (_ & _ & S).
    apply (In_nth _ _ "") in I as (i & Lt & <-).
    exists i; unfold realise; rewrite S; now rewrite Nat.mod_small.
Qed.

(** C1 (what the code does): on the example corpus with the start word the,
    the first iteration records [word_count["the"] = 3], finds the
    candidates cat and mat with the weights 2 and 1, and passes the weights
    to [numpy.random.choice] as its third positional argument, [replace].
    The draw is therefore uniform: cat and mat have probability 1/2 each,
    not 2/3 and 1/3.  The draw proportional to the weights is the one the
    library makes when the normalised weights are its argument [p]. *)
Theorem first_draw_is_uniform :
  let st := build_statistics example_corpus (init_state "the") in
  dict_get "the" (word_count st) = Some 3
  /\ candidates_of st = ["cat"; "mat"]
  /\ weights_of st (candidates_of st) = Ok [2; 1]
  /\ draw_dist example_corpus (init_state "the")
     = Ok [("cat", (1 # 2)%Q); ("mat", (1 # 2)%Q)]
  /\ ~ (prob "cat" [("cat", (1 # 2)%Q); ("mat", (1 # 2)%Q)] == 2 # 3)%Q
  /\ ~ (prob "mat" [("cat", (1 # 2)%Q); ("mat", (1 # 2)%Q)] == 1 # 3)%Q
  /\ spec_weighted_dist ["cat"; "mat"] [2; 1]
     = [("cat", (2 # 3)%Q); ("mat", (1 # 3)%Q)]
  /\ np_random_choice ["cat"; "mat"] true (Some [(2 # 3)%Q; (1 # 3)%Q])
     = Ok [("cat", (2 # 3)%Q); ("mat", (1 # 3)%Q)].
Proof.
  cbv zeta; repeat split; try (vm_compute; reflexivity);
    vm_compute; discriminate.
Qed.

(** ** The frequency tables *)

Section Ranking.
Context {K : Type}.

Lemma insert_desc_perm (x : K * nat) (l : list (K * nat)) :
  Permutation (insert_desc x l) (x :: l).
Proof.
  induction l as [|y l IH]; simpl; [reflexivity|].
  destruct (snd x <? snd y); [|reflexivity].
  rewrite IH; apply perm_swap.
Qed.

Lemma sorted_desc_perm (l : list (K * nat)) : Permutation (sorted_desc l) l.
Proof.
  induction l as [|x l IH]; simpl; [reflexivity|].
  rewrite insert_desc_perm; now constructor.
Qed.

Lemma insert_desc_descending (x : K * nat) (l : list (K * nat)) :
  descending l -> descending (insert_desc x l).
Proof.
  unfold descending; induction l as [|y l IH]; simpl; intros S.
  - repeat constructor.
  - inversion S as [|? ? S' F]; subst.
    destruct (Nat.ltb_spec (snd x) (snd y)) as [Lt|Ge].
    + constructor; [auto|].
      eapply Permutation_Forall;
        [symmetry; apply insert_desc_perm|].
      constructor; [lia|assumption].
    + constructor; [assumption|].
      constructor; [assumption|].
      eapply Forall_impl; [|exact F]; simpl; intros z Hz; lia.
Qed.

Lemma sorted_desc_descending (l : list (K * nat)) : descending (sorted_desc l).
Proof.
  induction l as [|x l IH]; simpl;
    [constructor | now apply insert_desc_descending].
Qed.

(** The sort is stable: items of one count keep their order. *)
Lemma insert_desc_stable (c : nat) (x : K * nat) (l : list (K * nat)) :
  filter (fun kv => snd kv =? c) (insert_desc x l)
  = filter (fun kv => snd kv =? c) (x :: l).
Proof.
  induction l as [|y l IH]; [reflexivity|].
  cbn [insert_desc]; destruct (Nat.ltb_spec (snd x) (snd y)) as [Lt|Ge];
    [|reflexivity].
  cbn [filter] in *; rewrite IH.
  destruct (Nat.eqb_spec (snd x) c), (Nat.eqb_spec (snd y) c);
    try reflexivity; lia.
Qed.

Lemma sorted_desc_stable (c : nat) (l : list (K * nat)) :
  filter (fun kv => snd kv =? c) (sorted_desc l)
  = filter (fun kv => snd kv =? c) l.
Proof.
  induction l as [|x l IH]; [reflexivity|].
  cbn [sorted_desc fold_right]; rewrite insert_desc_stable.
  cbn [filter]; fold (sorted_desc l); now rewrite IH.
Qed.
End Ranking.

Section DictOfItems.
Context {K V : Type} `{Key K}.

Lemma dict_of_items_from (items acc : list (K * V)) :
  NoDup (dict_keys (acc ++ items)) ->
  fold_left (fun d kv => dict_set (fst kv) (snd kv) d) items acc
  = acc ++ items.
Proof.
  revert acc; induction items as [|[k v] items IH]; intros acc ND;
    cbn [fold_left fst snd].
  - now rewrite app_nil_r.
  - assert (A : ~ In k (dict_keys acc)).
    { unfold dict_keys in ND; rewrite map_app in ND; simpl in ND.
      apply NoDup_remove_2 in ND; rewrite in_app_iff in ND; tauto. }
    rewrite dict_set_absent by assumption.
    rewrite IH.
    + now rewrite <- app_assoc.
    + now rewrite <- app_assoc.
Qed.

(** Items with distinct keys make the dict that lists them in order. *)
Lemma dict_of_items_nodup (items : list (K * V)) :
  NoDup (dict_keys items) -> dict_of_items items = items.
Proof. intros ND; unfold dict_of_items; now rewrite dict_of_items_from. Qed.
End DictOfItems.

Lemma fold_left_preserves {A B : Type} (P : A -> Prop) (f : A -> B -> A)
    (l : list B) (a : A) :
  P a -> (forall a b, P a -> P (f a b)) -> P (fold_left f l a).
Proof.
  intros Pa Pf; revert a Pa; induction l as [|b l IH]; intros a Pa; simpl; auto.
Qed.

Lemma count_words_nodup (words : list string) (look_for : look_for_arg) :
  NoDup (dict_keys (count_words words look_for)).
Proof.
  unfold count_words.
  apply (fold_left_preserves (fun d => NoDup (dict_keys d))); [constructor|].
  intros d word ND; destruct (looked_for look_for word);
    [now apply count_up_keys_nodup|assumption].
Qed.

Lemma count_wordpairs_nodup (words : list string) (look_for : look_for_arg) :
  NoDup (dict_keys (count_wordpairs words look_for)).
Proof.
  unfold count_wordpairs.
  apply (fold_left_preserves (fun d => NoDup (dict_keys d))); [constructor|].
  intros d i ND; destruct (looked_for look_for (nth i words ""));
    [now apply count_up_keys_nodup|assumption].
Qed.

Lemma count_letters_nodup (words : list string) :
  NoDup (dict_keys (count_letters words)).
Proof.
  unfold count_letters.
  apply (fold_left_preserves (fun d => NoDup (dict_keys d))); [constructor|].
  intros d letter ND; now apply count_up_keys_nodup.
Qed.

(** A table counted with distinct keys, sorted and made a dict again, is
    the sorted list of its items. *)
Lemma ranked_dict {K : Type} `{Key K} (d : dict K nat) :
  NoDup (dict_keys d) ->
  dict_of_items (sorted_desc d) = sorted_desc d
  /\ descending (dict_of_items (sorted_desc d)).
Proof.
  intros ND.
  assert (E : dict_of_items (sorted_desc d) = sorted_desc d).
  { apply dict_of_items_nodup.
    eapply Permutation_NoDup; [|exact ND].
    unfold dict_keys; apply Permutation_map; symmetry; apply sorted_desc_perm. }
  split; [assumption|]; rewrite E; apply sorted_desc_descending.
Qed.



(** * Further properties of the code *)

(** ** The tokenizer *)

Lemma filter_chars_app (f : ascii -> bool) (s t : string) :
  filter_chars f (s ++ t) = (filter_chars f s ++ filter_chars f t)%string.
Proof.
  induction s as [|c s IH]; simpl; [reflexivity|].
  destruct (f c); simpl; now rewrite IH.
Qed.

Lemma lower_app (s t : string) : lower (s ++ t) = (lower s ++ lower t)%string.
Proof. induction s as [|c s IH]; simpl; [reflexivity|now rewrite IH]. Qed.

Lemma split_nonnil (sep : ascii) (s : string) : split sep s <> [].
Proof.
  destruct s as [|c s]; simpl; [discriminate|].
  destruct (Ascii.eqb c sep); [discriminate|].
  destruct (split sep s); discriminate.
Qed.

(** A separator between two strings separates their fields. *)
Lemma split_app_sep (sep : ascii) (s t : string) :
  split sep (s ++ String sep t) = split sep s ++ split sep t.
Proof.
  induction s as [|c s IH]; simpl.
  - now rewrite Ascii.eqb_refl.
  - destruct (Ascii.eqb c sep); [now rewrite IH|].
    rewrite IH.
    pose proof (split_nonnil sep s) as N.
    destruct (split sep s) as [|w ws]; [contradiction|reflexivity].
Qed.

(** The fields of a split hold the characters of the string, without the
    separator. *)
Lemma split_forall (P : ascii -> bool) (sep : ascii) (s : string) :
  string_forall P s = true ->
  forall w, In w (split sep s) ->
    string_forall (fun c => P c && negb (Ascii.eqb c sep)) w = true.
Proof.
  induction s as [|c s IH]; simpl.
  - intros _ w [<-|[]]; reflexivity.
  - intros A; apply andb_true_iff in A as [Pc A].
    specialize (IH A).
    destruct (Ascii.eqb c sep) eqn:E.
    + intros w [<-|I]; [reflexivity|auto].
    + pose proof (split_nonnil sep s) as N.
      destruct (split sep s) as [|w0 ws]; [contradiction|].
      intros w [<-|I]; [|apply IH; now right].
      simpl; rewrite Pc, E; simpl; apply IH; now left.
Qed.


Lemma string_forall_impl (P Q : ascii -> bool) (s : string) :
  (forall c, P c = true -> Q c = true) ->
  string_forall P s = true -> string_forall Q s = true.
Proof.
  intros PQ; induction s as [|c s IH]; simpl; [reflexivity|].
  intros A; apply andb_true_iff in A as [Pc A]; rewrite (PQ _ Pc); auto.
Qed.

Lemma lower_forall (P Q : ascii -> bool) (s : string) :
  (forall c, P c = true -> Q (lower_char c) = true) ->
  string_forall P s = true -> string_forall Q (lower s) = true.
Proof.
  intros PQ; induction s as [|c s IH]; simpl; [reflexivity|].
  intros A; apply andb_true_iff in A as [Pc A]; rewrite (PQ _ Pc); auto.
Qed.

Lemma lower_char_idempotent (c : ascii) :
  lower_char (lower_char c) = lower_char c.
Proof. destruct c as [[] [] [] [] [] [] [] []]; reflexivity. Qed.

Lemma lower_idempotent (s : string) : lower (lower s) = lower s.
Proof.
  induction s as [|c s IH]; simpl;
    [reflexivity|now rewrite lower_char_idempotent, IH].
Qed.



Lemma string_forall_app (P : ascii -> bool) (s t : string) :
  string_forall P (s ++ t) = string_forall P s && string_forall P t.
Proof.
  induction s as [|c s IH]; simpl; [reflexivity|].
  now rewrite IH, andb_assoc.
Qed.

Lemma join_forall (P : ascii -> bool) (l : list string) :
  P space = true ->
  forallb (string_forall P) l = true ->
  string_forall P (join " " l) = true.
Proof.
  intros Ps; induction l as [|x l IH]; [reflexivity|].
  cbn [forallb]; intros A; apply andb_true_iff in A as [Px A].
  destruct l as [|y l]; [exact Px|].
  change (join " " (x :: y :: l))
    with (x ++ String space (join " " (y :: l)))%string.
  rewrite string_forall_app, Px; cbn [string_forall andb].
  now rewrite Ps, IH.
Qed.

Lemma filter_chars_forall_and (f P : ascii -> bool) (s : string) :
  string_forall P s = true ->
  string_forall (fun c => f c && P c) (filter_chars f s) = true.
Proof.
  induction s as [|c s IH]; simpl; [reflexivity|].
  intros A; apply andb_true_iff in A as [Pc A].
  destruct (f c) eqn:E; simpl; [rewrite E, Pc; simpl|]; auto.
Qed.

(** Lowercasing an ASCII letter gives one of a to z. *)
Lemma lower_char_ascii (c : ascii) :
  (isalpha c || Ascii.eqb c space) && ascii_char c = true ->
  az_letter (lower_char c) || Ascii.eqb (lower_char c) space = true.
Proof.
  destruct c as [[] [] [] [] [] [] [] []]; vm_compute; intros E;
    (reflexivity || discriminate E).
Qed.

Lemma ascii_text_raw (text : text_arg) :
  ascii_text text = true ->
  string_forall ascii_char
    (match text with
     | TextList l => join " " l
     | TextStr s => s
     end) = true.
Proof.
  destruct text as [s|l]; cbn [ascii_text]; [trivial|].
  now apply join_forall.
Qed.


(** The tokens of an ASCII text are non-empty strings of the letters a to
    z. *)
Lemma clean_text_tokens_ascii (text : text_arg) (w : string) :
  ascii_text text = true ->
  In w (clean_text text) ->
  nonempty w = true /\ string_forall az_letter w = true.
Proof.
  intros A I; apply ascii_text_raw in A.
  unfold clean_text in I; apply filter_In in I as [I NE].
  split; [assumption|].
  eapply string_forall_impl; [|eapply split_forall; [|exact I]].
  - intros c B; apply andb_true_iff in B as [B C]; revert B C.
    instantiate (1 := fun c => az_letter c || Ascii.eqb c space).
    simpl; destruct (Ascii.eqb c space); simpl;
      [discriminate|now rewrite orb_false_r].
  - eapply lower_forall; [|apply filter_chars_forall_and, A].
    exact lower_char_ascii.
Qed.



Lemma clean_text_str_app (s t : string) :
  clean_text (TextStr (s ++ String space t))
  = clean_text (TextStr s) ++ clean_text (TextStr t).
Proof.
  unfold clean_text.
  rewrite filter_chars_app; cbn [filter_chars].
  change (isalpha space || Ascii.eqb space space) with true; cbv iota.
  rewrite lower_app; cbn [lower].
  change (lower_char space) with space.
  now rewrite split_app_sep, filter_app.
Qed.

Lemma clean_text_lines (lines : list string) :
  clean_text (TextList lines)
  = List.concat (map (fun line => clean_text (TextStr line)) lines).
Proof.
  change (clean_text (TextList lines))
    with (clean_text (TextStr (join " " lines))).
  induction lines as [|x l IH]; [reflexivity|].
  destruct l as [|y l].
  - cbn [map List.concat]; now rewrite app_nil_r.
  - change (join " " (x :: y :: l))
      with (x ++ String space (join " " (y :: l)))%string.
    rewrite clean_text_str_app, IH; reflexivity.
Qed.

(** X2: the tokens of a list of lines are the tokens of the first line, then
    those of the second, and so on: no word runs over the end of a line, and
    tokenizing two lists one after the other is tokenizing their
    concatenation. *)
Theorem clean_text_line_by_line (lines more : list string) :
  clean_text (TextList lines)
  = List.concat (map (fun line => clean_text (TextStr line)) lines)
  /\ clean_text (TextList (lines ++ more))
     = clean_text (TextList lines) ++ clean_text (TextList more).
Proof.
  split; [apply clean_text_lines|].
  now rewrite !clean_text_lines, map_app, concat_app.
Qed.

Lemma filter_chars_id (f : ascii -> bool) (s : string) :
  string_forall f s = true -> filter_chars f s = s.
Proof.
  induction s as [|c s IH]; simpl; [reflexivity|].
  intros A; apply andb_true_iff in A as [-> A]; now rewrite IH.
Qed.

Lemma lower_id (s : string) :
  string_forall (fun c => Ascii.eqb (lower_char c) c) s = true -> lower s = s.
Proof.
  induction s as [|c s IH]; simpl; [reflexivity|].
  intros A; apply andb_true_iff in A as [E A].
  apply Ascii.eqb_eq in E; now rewrite E, IH.
Qed.

Lemma split_id (sep : ascii) (s : string) :
  string_forall (fun c => negb (Ascii.eqb c sep)) s = true ->
  split sep s = [s].
Proof.
  induction s as [|c s IH]; simpl; [reflexivity|].
  intros A; apply andb_true_iff in A as [E A].
  apply negb_true_iff in E; now rewrite E, IH.
Qed.

Lemma lower_letter_not_space (c : ascii) :
  lower_letter c = true -> Ascii.eqb c space = false.
Proof.
  destruct (Ascii.eqb_spec c space) as [->|]; [discriminate|reflexivity].
Qed.

(** A word is its own single token. *)
Lemma clean_text_word (w : string) :
  is_word w = true -> clean_text (TextStr w) = [w].
Proof.
  unfold is_word; intros A; apply andb_true_iff in A as [NE A].
  unfold clean_text.
  rewrite filter_chars_id, lower_id, split_id.
  - cbn [filter]; now rewrite NE.
  - eapply string_forall_impl; [|exact A].
    intros c L; now rewrite (lower_letter_not_space _ L).
  - eapply string_forall_impl; [|exact A].
    unfold lower_letter; intros c L; now apply andb_true_iff in L as [_ L].
  - eapply string_forall_impl; [|exact A].
    unfold lower_letter; intros c L; apply andb_true_iff in L as [-> _].
    reflexivity.
Qed.

Lemma clean_text_of_words (ws : list string) :
  (forall w, In w ws -> is_word w = true) -> clean_text (TextList ws) = ws.
Proof.
  intros All; rewrite clean_text_lines.
  induction ws as [|w ws IH]; [reflexivity|].
  cbn [map List.concat]; rewrite clean_text_word by (apply All; now left).
  rewrite IH by (intros z Hz; apply All; now right); reflexivity.
Qed.

(** Each of the letters a to z is a lowercase letter. *)
Lemma az_letter_lower (c : ascii) :
  az_letter c = true -> lower_letter c = true.
Proof.
  destruct c as [[] [] [] [] [] [] [] []]; vm_compute; intros E;
    (reflexivity || discriminate E).
Qed.

(** X3: on a text of ASCII characters cleaning is idempotent: the tokens
    [clean_text] returns, cleaned again as a list of strings, are the same
    tokens; and any list of words (non-empty strings of lowercase letters)
    is its own cleaning. *)
Theorem clean_text_idempotent_ascii (text : text_arg) (ws : list string) :
  (ascii_text text = true ->
   clean_text (TextList (clean_text text)) = clean_text text)
  /\ ((forall w, In w ws -> is_word w = true) ->
      clean_text (TextList ws) = ws).
Proof.
  split; [intros A|apply clean_text_of_words].
  apply clean_text_of_words; intros w I.
  apply (clean_text_tokens_ascii text w A) in I as [NE L].
  unfold is_word; rewrite NE; cbn [andb].
  eapply string_forall_impl; [|exact L].
  exact az_letter_lower.
Qed.

Lemma clean_text_idempotent_ascii_witness :
  clean_text (TextList (clean_text (TextStr tokenizer_line)))
  = clean_text (TextStr tokenizer_line)
  /\ clean_text (TextList ["the"; "cat"]) = ["the"; "cat"].
Proof.
  split.
  - apply (proj1 (clean_text_idempotent_ascii (TextStr tokenizer_line) [])).
    reflexivity.
  - apply (proj2 (clean_text_idempotent_ascii (TextStr "") ["the"; "cat"])).
    intros w [<-|[<-|[]]]; reflexivity.
Defined.

(** ** Counting into a dict *)

Section Counting.
Context {K : Type} `{Key K}.

Lemma dict_set_in (k : K) (v : nat) (d : dict K nat) (kv : K * nat) :
  In kv (dict_set k v d) -> kv = (k, v) \/ In kv d.
Proof.
  induction d as [|[k' v'] d IH]; cbn [dict_set].
  - intros [<-|[]]; now left.
  - destruct (keq k k'); intros [<-|I]; auto.
    + right; now right.
    + right; now left.
    + destruct (IH I); auto; right; now right.
Qed.

Lemma count_up_positive (k : K) (d : dict K nat) :
  positive d -> positive (count_up k d).
Proof.
  intros P kv I; unfold count_up in I.
  destruct (dict_get k d); apply dict_set_in in I as [->|I]; auto;
    simpl; lia.
Qed.

Lemma count_of_count_up_same (k : K) (d : dict K nat) :
  count_of k (count_up k d) = count_of k d + 1.
Proof.
  unfold count_of; rewrite dict_get_count_up_same.
  destruct (dict_get k d); reflexivity.
Qed.

Lemma count_of_count_up_other (k k0 : K) (d : dict K nat) :
  k0 <> k -> count_of k0 (count_up k d) = count_of k0 d.
Proof. intros N; unfold count_of; now rewrite dict_get_count_up_other. Qed.

(** In a table of positive counts a key is absent exactly when its count is
    zero. *)
Lemma dict_get_count_of (k : K) (d : dict K nat) :
  positive d ->
  dict_get k d = if count_of k d =? 0 then None else Some (count_of k d).
Proof.
  intros P; unfold count_of; destruct (dict_get k d) as [c|] eqn:G;
    [|reflexivity].
  apply dict_get_some_in, P in G; simpl in G.
  destruct (Nat.eqb_spec c 0); [lia|reflexivity].
Qed.

Lemma total_count_cons (k : K) (v : nat) (d : dict K nat) :
  total_count ((k, v) :: d) = v + total_count d.
Proof. reflexivity. Qed.

Lemma total_count_app (d1 d2 : dict K nat) :
  total_count (d1 ++ d2) = total_count d1 + total_count d2.
Proof.
  induction d1 as [|[k v] d1 IH]; [reflexivity|].
  rewrite <- app_comm_cons, !total_count_cons, IH; lia.
Qed.

Lemma total_count_count_up (k : K) (d : dict K nat) :
  total_count (count_up k d) = total_count d + 1.
Proof.
  unfold count_up; destruct (dict_get k d) as [c|] eqn:G.
  - revert G; induction d as [|[k' v'] d IH]; cbn [dict_get dict_set];
      [discriminate|].
    destruct (keq k k').
    + intros [= ->]; rewrite !total_count_cons; lia.
    + intros G; rewrite !total_count_cons, (IH G); lia.
  - rewrite dict_set_absent by now apply dict_get_none_keys.
    rewrite total_count_app; reflexivity.
Qed.

Lemma total_count_perm (d d' : dict K nat) :
  Permutation d d' -> total_count d = total_count d'.
Proof.
  induction 1 as [|[k v] d d' _ IH|[k v] [k' v'] d|d d' d'' _ IH1 _ IH2];
    rewrite ?total_count_cons; lia.
Qed.

(** A lookup does not depend on the order of the items of a dict with
    distinct keys. *)
Lemma dict_get_in_nodup (k : K) (v : nat) (d : dict K nat) :
  NoDup (dict_keys d) -> In (k, v) d -> dict_get k d = Some v.
Proof.
  induction d as [|[k' v'] d IH]; [intros _ []|].
  intros ND I; inversion ND as [|? ? Hk ND']; subst; cbn [dict_get].
  destruct I as [[= -> ->]|I]; [now rewrite keq_refl|].
  destruct (keq_spec k k') as [->|_]; [|auto].
  exfalso; apply Hk; change k' with (fst (k', v)); now apply in_map.
Qed.

Lemma dict_get_perm (k : K) (d d' : dict K nat) :
  NoDup (dict_keys d) -> Permutation d d' -> dict_get k d' = dict_get k d.
Proof.
  intros ND P.
  assert (ND' : NoDup (dict_keys d')).
  { eapply Permutation_NoDup; [|exact ND]; now apply Permutation_map. }
  destruct (dict_get k d) as [v|] eqn:G.
  - apply dict_get_in_nodup; [assumption|].
    eapply Permutation_in; [exact P|now apply dict_get_some_in].
  - destruct (dict_get k d') as [v'|] eqn:G'; [|reflexivity].
    apply dict_get_some_in in G'.
    apply Permutation_sym in P.
    apply (Permutation_in _ P), (dict_get_in_nodup _ _ _ ND) in G'.
    congruence.
Qed.

(** The table after sorting and [dict(...)]: same lookups, same total. *)
Lemma ranked_lookup (k : K) (d : dict K nat) :
  NoDup (dict_keys d) ->
  dict_get k (dict_of_items (sorted_desc d)) = dict_get k d.
Proof.
  intros ND; rewrite (proj1 (ranked_dict d ND)).
  apply dict_get_perm; [assumption|].
  symmetry; apply sorted_desc_perm.
Qed.

Lemma ranked_total (d : dict K nat) :
  NoDup (dict_keys d) ->
  total_count (dict_of_items (sorted_desc d)) = total_count d.
Proof.
  intros ND; rewrite (proj1 (ranked_dict d ND)).
  apply total_count_perm, sorted_desc_perm.
Qed.

(** The counting loops: every element that passes the test counts once for
    its key. *)
Section Fold.
Context {B : Type} (key : B -> K) (test : B -> bool).

Let step (d : dict K nat) (b : B) : dict K nat :=
  if test b then count_up (key b) d else d.

Lemma fold_count_of (k : K) (l : list B) (d : dict K nat) :
  count_of k (fold_left step l d)
  = count_of k d
    + List.length (filter (fun b => test b && keq (key b) k) l).
Proof.
  revert d; induction l as [|b l IH]; intros d; cbn [fold_left filter];
    [simpl; lia|].
  rewrite IH; unfold step.
  destruct (test b); cbn [andb]; [|lia].
  destruct (keq_spec (key b) k) as [<-|N].
  - rewrite count_of_count_up_same; simpl; lia.
  - rewrite count_of_count_up_other by congruence; lia.
Qed.

Lemma fold_positive (l : list B) (d : dict K nat) :
  positive d -> positive (fold_left step l d).
Proof.
  intros P0; apply (fold_left_preserves positive); [assumption|].
  intros d' b P; unfold step.
  destruct (test b); [now apply count_up_positive|assumption].
Qed.

Lemma fold_total_count (l : list B) (d : dict K nat) :
  total_count (fold_left step l d)
  = total_count d + List.length (filter test l).
Proof.
  revert d; induction l as [|b l IH]; intros d; cbn [fold_left filter];
    [simpl; lia|].
  rewrite IH; unfold step.
  destruct (test b); [rewrite total_count_count_up; simpl; lia|lia].
Qed.
End Fold.
End Counting.

Lemma positive_nil {K : Type} : positive (@nil (K * nat)).
Proof. intros kv []. Qed.

(** ** What the frequency tables hold *)

Lemma looked_for_occurrences (look_for : look_for_arg) (words : list string)
    (w : string) :
  List.length (filter (fun b => looked_for look_for b && String.eqb b w) words)
  = if looked_for look_for w then count_occ string_dec words w else 0.
Proof.
  induction words as [|x t IH]; cbn [filter count_occ].
  - now destruct (looked_for look_for w).
  - destruct (string_dec x w) as [E|E], (String.eqb_spec x w) as [E'|E'];
      try congruence.
    + subst x; destruct (looked_for look_for w); cbn [andb List.length];
        rewrite IH; reflexivity.
    + rewrite andb_false_r; exact IH.
Qed.

Lemma count_words_lookup (words : list string) (look_for : look_for_arg)
    (w : string) :
  positive (count_words words look_for)
  /\ count_of w (count_words words look_for)
     = if looked_for look_for w then count_occ string_dec words w else 0.
Proof.
  split.
  - apply (fold_positive (fun w => w) (looked_for look_for)), positive_nil.
  - unfold count_words.
    rewrite (fold_count_of (fun w => w) (looked_for look_for)).
    cbn [count_of dict_get Nat.add]; apply looked_for_occurrences.
Qed.

(** X4: the word table of [get_frequencies] holds, for every word that is
    looked for and occurs in the text, the number of its occurrences; every
    other word is not a key. *)
Theorem wordcount_lookup (words : list string) (look_for : look_for_arg)
    (letter_freq : bool) (w : string) :
  dict_get w (wordcount_of (get_frequencies words look_for letter_freq))
  = if looked_for look_for w && (0 <? count_occ string_dec words w)
    then Some (count_occ string_dec words w)
    else None.
Proof.
  assert (E : wordcount_of (get_frequencies words look_for letter_freq)
              = dict_of_items (sorted_desc (count_words words look_for))).
  { unfold get_frequencies; now destruct letter_freq. }
  rewrite E, ranked_lookup by apply count_words_nodup.
  destruct (count_words_lookup words look_for w) as [P C].
  rewrite (dict_get_count_of _ _ P), C.
  destruct (looked_for look_for w); [|reflexivity].
  cbn [andb]; destruct (count_occ string_dec words w); reflexivity.
Qed.

Lemma filter_map_S (P : nat -> bool) (l : list nat) :
  filter P (map S l) = map S (filter (fun i => P (S i)) l).
Proof.
  induction l as [|i l IH]; [reflexivity|].
  cbn [map filter]; destruct (P (S i)); cbn [map]; now rewrite IH.
Qed.

(** Counting by position is counting along the list. *)
Lemma pair_positions (words : list string) (a b : string) :
  List.length
    (filter (fun i => String.eqb (nth i words "") a
                      && String.eqb (nth (i + 1) words "") b)
            (seq 0 (List.length words - 1)))
  = pair_occurrences words a b.
Proof.
  induction words as [|x t IH]; [reflexivity|].
  destruct t as [|y t]; [reflexivity|].
  replace (List.length (x :: y :: t) - 1) with (S (List.length (y :: t) - 1))
    by (simpl; lia).
  rewrite <- cons_seq, <- seq_shift.
  cbn [filter]; rewrite filter_map_S.
  change (pair_occurrences (x :: y :: t) a b)
    with ((if String.eqb x a && String.eqb y b then 1 else 0)
          + pair_occurrences (y :: t) a b).
  rewrite <- IH.
  change (nth 0 (x :: y :: t) "") with x.
  change (nth (0 + 1) (x :: y :: t) "") with y.
  destruct (String.eqb x a && String.eqb y b); cbn [List.length];
    rewrite length_map; reflexivity.
Qed.

Lemma pair_occurrences_follows (words : list string) (a b : string) :
  0 < pair_occurrences words a b <-> follows words a b.
Proof.
  split.
  - induction words as [|x t IH]; [simpl; lia|].
    destruct t as [|y t]; [simpl; lia|].
    change (pair_occurrences (x :: y :: t) a b)
      with ((if String.eqb x a && String.eqb y b then 1 else 0)
            + pair_occurrences (y :: t) a b).
    destruct (String.eqb_spec x a) as [->|_], (String.eqb_spec y b) as [->|_];
      cbn [andb]; intros L;
      try (apply follows_tail, IH; lia).
    apply follows_head.
  - intros (l1 & l2 & ->); induction l1 as [|x l1 IH].
    + simpl; rewrite !String.eqb_refl; simpl; lia.
    + rewrite <- app_comm_cons.
      destruct (l1 ++ a :: b :: l2) as [|y t]; [simpl in IH; lia|].
      change (pair_occurrences (x :: y :: t) a b)
        with ((if String.eqb x a && String.eqb y b then 1 else 0)
              + pair_occurrences (y :: t) a b).
      lia.
Qed.

Lemma count_wordpairs_lookup (words : list string) (look_for : look_for_arg)
    (a b : string) :
  positive (count_wordpairs words look_for)
  /\ count_of (a, b) (count_wordpairs words look_for)
     = if looked_for look_for a then pair_occurrences words a b else 0.
Proof.
  split.
  - apply (fold_positive (fun i => (nth i words "", nth (i + 1) words ""))
             (fun i => looked_for look_for (nth i words ""))), positive_nil.
  - unfold count_wordpairs.
    rewrite (fold_count_of (fun i => (nth i words "", nth (i + 1) words ""))
               (fun i => looked_for look_for (nth i words ""))).
    cbn [count_of dict_get Nat.add].
    rewrite <- pair_positions.
    destruct (looked_for look_for a) eqn:L.
    + f_equal; apply filter_ext; intros i.
      change (keq (nth i words "", nth (i + 1) words "") (a, b))
        with (String.eqb (nth i words "") a
              && String.eqb (nth (i + 1) words "") b).
      destruct (String.eqb_spec (nth i words "") a) as [->|_];
        [now rewrite L|apply andb_false_r].
    + rewrite (filter_ext _ (fun _ => false)).
      * now induction (seq 0 (List.length words - 1)).
      * intros i.
        change (keq (nth i words "", nth (i + 1) words "") (a, b))
          with (String.eqb (nth i words "") a
                && String.eqb (nth (i + 1) words "") b).
        destruct (String.eqb_spec (nth i words "") a) as [->|_];
          [now rewrite L|apply andb_false_r].
Qed.

(** X5: the pair table of [get_frequencies] holds, for every pair whose
    first word is looked for and whose second word follows the first
    somewhere in the text, the number of places where it does; no other
    pair is a key. *)
Theorem wordpaircount_lookup (words : list string) (look_for : look_for_arg)
    (letter_freq : bool) (a b : string) :
  dict_get (a, b)
    (wordpaircount_of (get_frequencies words look_for letter_freq))
  = (if looked_for look_for a && (0 <? pair_occurrences words a b)
     then Some (pair_occurrences words a b)
     else None)
  /\ (0 < pair_occurrences words a b <-> follows words a b).
Proof.
  split; [|apply pair_occurrences_follows].
  assert (E : wordpaircount_of (get_frequencies words look_for letter_freq)
              = dict_of_items (sorted_desc (count_wordpairs words look_for))).
  { unfold get_frequencies; now destruct letter_freq. }
  rewrite E, ranked_lookup by apply count_wordpairs_nodup.
  destruct (count_wordpairs_lookup words look_for a b) as [P C].
  rewrite (dict_get_count_of _ _ P), C.
  destruct (looked_for look_for a); [|reflexivity].
  cbn [andb]; destruct (pair_occurrences words a b); reflexivity.
Qed.

Lemma list_ascii_length (s : string) :
  List.length (list_ascii_of_string s) = String.length s.
Proof. induction s as [|c s IH]; simpl; [reflexivity|now rewrite IH]. Qed.

Lemma filter_all {A : Type} (l : list A) : filter (fun _ => true) l = l.
Proof. induction l as [|x l IH]; simpl; [reflexivity|now rewrite IH]. Qed.

(** X6: the counts of a table add up to what was counted: the word table
    to the number of looked-for words of the text, the pair table (when all
    words are looked for) to the number of words less one, the letter table
    to the number of letters of all words. *)
Theorem frequency_totals (words : list string) :
  (forall look_for letter_freq,
     total_count (wordcount_of (get_frequencies words look_for letter_freq))
     = List.length (filter (looked_for look_for) words))
  /\ (forall letter_freq,
        total_count (wordpaircount_of (get_frequencies words LookAll letter_freq))
        = List.length words - 1)
  /\ (forall look_for,
        total_count (lettercount_of (get_frequencies words look_for true))
        = String.length (join "" words)).
Proof.
  split; [|split].
  - intros look_for letter_freq.
    assert (E : wordcount_of (get_frequencies words look_for letter_freq)
                = dict_of_items (sorted_desc (count_words words look_for))).
    { unfold get_frequencies; now destruct letter_freq. }
    rewrite E, ranked_total by apply count_words_nodup.
    unfold count_words.
    now rewrite (fold_total_count (fun w => w) (looked_for look_for)).
  - intros letter_freq.
    assert (E : wordpaircount_of (get_frequencies words LookAll letter_freq)
                = dict_of_items (sorted_desc (count_wordpairs words LookAll))).
    { unfold get_frequencies; now destruct letter_freq. }
    rewrite E, ranked_total by apply count_wordpairs_nodup.
    unfold count_wordpairs.
    rewrite (fold_total_count
               (fun i => (nth i words "", nth (i + 1) words ""))
               (fun i => looked_for LookAll (nth i words ""))).
    cbn [looked_for]; now rewrite filter_all, length_seq.
  - intros look_for; cbn [get_frequencies lettercount_of].
    rewrite ranked_total by apply count_letters_nodup.
    unfold count_letters.
    rewrite (fold_total_count (fun c : ascii => c) (fun _ => true)).
    now rewrite filter_all, list_ascii_length.
Qed.

(** X7: the letter table holds for every letter the number of times it
    occurs in the words, and no letter that does not occur. *)
Theorem lettercount_lookup (words : list string) (look_for : look_for_arg)
    (c : ascii) :
  let n := count_occ ascii_dec (list_ascii_of_string (join "" words)) c in
  dict_get c (lettercount_of (get_frequencies words look_for true))
  = if 0 <? n then Some n else None.
Proof.
  cbv zeta; cbn [get_frequencies lettercount_of].
  rewrite ranked_lookup by apply count_letters_nodup.
  assert (P : positive (count_letters words)).
  { apply (fold_positive (fun c : ascii => c) (fun _ => true)), positive_nil. }
  rewrite (dict_get_count_of _ _ P); unfold count_letters.
  rewrite (fold_count_of (fun c : ascii => c) (fun _ => true)).
  cbn [count_of dict_get Nat.add andb].
  assert (E : forall l,
             List.length (filter (fun b => keq b c) l)
             = count_occ ascii_dec l c).
  { induction l as [|x l IH]; [reflexivity|].
    cbn [filter count_occ].
    change (keq x c) with (Ascii.eqb x c).
    destruct (ascii_dec x c) as [D|D], (Ascii.eqb_spec x c) as [D'|D'];
      try congruence; cbn [List.length]; now rewrite IH. }
  rewrite E.
  destruct (count_occ ascii_dec (list_ascii_of_string (join "" words)) c);
    reflexivity.
Qed.

(** ** The order of equal counts *)

Lemma count_up_keys {K : Type} `{Key K} (k : K) (d : dict K nat) :
  (In k (dict_keys d) -> dict_keys (count_up k d) = dict_keys d)
  /\ (~ In k (dict_keys d) -> dict_keys (count_up k d) = dict_keys d ++ [k]).
Proof.
  unfold count_up; split; intros I.
  - destruct (dict_get k d); now apply dict_set_present_keys.
  - destruct (dict_get k d) eqn:G.
    + exfalso; apply I; apply dict_get_some_in in G.
      change k with (fst (k, n)); now apply in_map.
    + rewrite dict_set_absent by assumption.
      unfold dict_keys; now rewrite map_app.
Qed.

Lemma first_occurrences_in (words : list string) (w : string) :
  In w (first_occurrences words) <-> In w words.
Proof.
  unfold first_occurrences; now rewrite <- in_rev, nodup_In, <- in_rev.
Qed.

Lemma first_occurrences_snoc (words : list string) (w : string) :
  first_occurrences (words ++ [w])
  = if in_dec string_dec w words then first_occurrences words
    else first_occurrences words ++ [w].
Proof.
  unfold first_occurrences; rewrite rev_app_distr; cbn [rev app nodup].
  destruct (in_dec string_dec w (rev words)) as [I|N],
           (in_dec string_dec w words) as [I'|N'];
    try reflexivity.
  - exfalso; apply N'; now apply in_rev.
  - exfalso; apply N; now apply in_rev in I'.
Qed.

(** The keys of a counted table are the counted words in the order of their
    first occurrence. *)
Lemma count_all_keys (words : list string) :
  dict_keys (fold_left (fun d w => count_up w d) words [])
  = first_occurrences words.
Proof.
  induction words as [|w words IH] using rev_ind; [reflexivity|].
  rewrite fold_left_app, first_occurrences_snoc; cbn [fold_left].
  destruct (count_up_keys w (fold_left (fun d w => count_up w d) words []))
    as [In_ Out].
  rewrite IH in In_, Out.
  destruct (in_dec string_dec w words) as [I|N].
  - rewrite In_; [reflexivity|now apply first_occurrences_in].
  - rewrite Out; [reflexivity|now rewrite first_occurrences_in].
Qed.

Lemma fold_left_filter {A B : Type} (f : A -> B -> A) (test : B -> bool)
    (l : list B) (a : A) :
  fold_left (fun a b => if test b then f a b else a) l a
  = fold_left f (filter test l) a.
Proof.
  revert a; induction l as [|b l IH]; intros a; cbn [fold_left filter];
    [reflexivity|].
  destruct (test b); cbn [fold_left]; apply IH.
Qed.

Lemma count_words_keys (words : list string) (look_for : look_for_arg) :
  dict_keys (count_words words look_for)
  = first_occurrences (filter (looked_for look_for) words).
Proof.
  unfold count_words.
  rewrite (fold_left_filter (fun d w => count_up w d) (looked_for look_for)).
  apply count_all_keys.
Qed.

Lemma map_filter_along {A B : Type} (f : A -> B) (P : A -> bool)
    (Q : B -> bool) (l : list A) :
  (forall x, In x l -> P x = Q (f x)) ->
  map f (filter P l) = filter Q (map f l).
Proof.
  induction l as [|x l IH]; intros E; [reflexivity|].
  cbn [filter map]; rewrite <- (E x (or_introl eq_refl)).
  rewrite <- IH by (intros y Hy; apply E; now right).
  now destruct (P x).
Qed.

(** X8: ties are broken by first occurrence.  In the word table of
    [get_frequencies] the words of one count [c] are listed in the order in
    which they first occur in the text. *)
Theorem wordcount_ties_in_text_order (words : list string)
    (look_for : look_for_arg) (letter_freq : bool) (c : nat) :
  dict_keys
    (filter (fun kv => snd kv =? c)
       (wordcount_of (get_frequencies words look_for letter_freq)))
  = filter (fun w => count_occ string_dec words w =? c)
      (first_occurrences (filter (looked_for look_for) words)).
Proof.
  assert (E : wordcount_of (get_frequencies words look_for letter_freq)
              = dict_of_items (sorted_desc (count_words words look_for))).
  { unfold get_frequencies; now destruct letter_freq. }
  pose proof (count_words_nodup words look_for) as ND.
  rewrite E, (proj1 (ranked_dict _ ND)), sorted_desc_stable.
  rewrite <- count_words_keys.
  apply (map_filter_along fst).
  intros [w v] I; cbn [fst snd].
  pose proof (dict_get_in_nodup _ _ _ ND I) as G.
  destruct (count_words_lookup words look_for w) as [_ C].
  unfold count_of in C; rewrite G in C.
  assert (L : looked_for look_for w = true).
  { assert (J : In w (dict_keys (count_words words look_for))).
    { change w with (fst (w, v)); now apply in_map. }
    rewrite count_words_keys, first_occurrences_in in J.
    now apply filter_In in J as [_ J]. }
  rewrite L in C; now rewrite C.
Qed.

(** ** Whole runs of the generator *)

Lemma follows_in (text : list string) (a b : string) :
  follows text a b -> In a text /\ In b text.
Proof.
  intros (l1 & l2 & ->); split; apply in_or_app; right;
    [now left|right; now left].
Qed.

(** A word of the text that nothing follows is its last word. *)
Lemma dead_end_is_last (text : list string) (d : string) :
  In d text -> (forall b, ~ follows text d b) -> d = last text "".
Proof.
  intros I NF; apply in_split in I as (l1 & l2 & ->).
  destruct l2 as [|b l2]; [now rewrite last_last|].
  exfalso; apply (NF b); now exists l1, l2.
Qed.

Lemma reachable_words (text : list string) (seed : string) (st : state) :
  In seed text ->
  reachable text seed st ->
  forall x, In x (generated_text st) -> In x text.
Proof.
  intros S R; induction R as [|st st' sample R IH B]; intros x I.
  - destruct I as [<-|[]]; assumption.
  - pose proof (reachable_invariant _ _ _ R) as Inv.
    destruct (body_draws_successor _ _ _ _ Inv B) as [_ F].
    apply body_ok in B as [_ E]; rewrite E in I; cbn [generated_text] in I.
    apply in_app_or in I as [I|[<-|[]]]; [auto|].
    now apply follows_in in F.
Qed.

(** How the loop ends when it ends by its test: after [i] iterations, each
    begun in time and below the requested length; then either the length is
    reached, or the clock, read once more, says the time is up. *)
Lemma loop_finished (clock : nat -> bool) (rand : nat -> nat)
    (text : list string) (n_words : Z) (fuel ticks : nat) (st st' : state)
    (ticks' : nat) :
  loop clock rand fuel text n_words ticks st = Finished st' ticks' ->
  exists i extra,
    generated_text st' = generated_text st ++ extra
    /\ List.length extra = i
    /\ (forall j, j < i ->
          clock (ticks + j) = true
          /\ (Z.of_nat (List.length (generated_text st) + j) < n_words)%Z)
    /\ ((n_words <= Z.of_nat (List.length (generated_text st')))%Z
        /\ ticks' = ticks + i
        \/ (Z.of_nat (List.length (generated_text st')) < n_words)%Z
           /\ clock (ticks + i) = false /\ ticks' = ticks + i + 1).
Proof.
  revert ticks st; induction fuel as [|fuel IH]; intros ticks st;
    cbn [loop]; [discriminate|].
  destruct (Z.ltb_spec (Z.of_nat (List.length (generated_text st))) n_words)
    as [Lt|Ge].
  - destruct (clock ticks) eqn:C.
    + destruct (body text st (rand ticks)) as [st1|e] eqn:B; [|discriminate].
      intros L; apply IH in L as (i & extra & E & Len & Iter & End).
      apply body_ok in B as [_ B].
      assert (G1 : generated_text st1
                   = generated_text st ++ [current_word st1])
        by (rewrite B at 1; reflexivity).
      rewrite G1 in E, Iter.
      exists (S i), (current_word st1 :: extra).
      split; [now rewrite E, <- app_assoc|].
      split; [simpl; now rewrite Len|].
      split.
      * intros [|j] Lj.
        -- rewrite !Nat.add_0_r; auto.
        -- destruct (Iter j ltac:(lia)) as [Cj Bj].
           rewrite length_app in Bj; cbn [List.length] in Bj.
           replace (ticks + S j) with (S ticks + j) by lia.
           split; [assumption|].
           replace (List.length (generated_text st) + S j)
             with (List.length (generated_text st) + 1 + j) by lia.
           assumption.
      * replace (ticks + S i) with (S ticks + i) by lia.
        replace (ticks + S i + 1) with (S ticks + i + 1) by lia.
        exact End.
    + intros [= <- <-]; exists 0, []; rewrite app_nil_r, !Nat.add_0_r.
      split; [reflexivity|]; split; [reflexivity|].
      split; [intros j Lj; lia|right; repeat split; auto; lia].
  - intros [= <- <-]; exists 0, []; rewrite app_nil_r, !Nat.add_0_r.
    split; [reflexivity|]; split; [reflexivity|].
    split; [intros j Lj; lia|left; split; lia].
Qed.

Lemma generate_generated (clock : nat -> bool) (rand : nat -> nat)
    (text : list string) (w : string) (n_words : Z) (g : list string)
    (flag : bool) :
  generate clock rand text w n_words = Generated g flag ->
  In w text
  /\ exists st ticks,
       loop clock rand (S (Z.to_nat n_words)) text n_words 0 (init_state w)
       = Finished st ticks
       /\ g = generated_text st /\ flag = negb (clock ticks)
       /\ reachable text w st.
Proof.
  unfold generate.
  destruct (existsb (String.eqb w) text) eqn:E; cbn [negb]; [|discriminate].
  apply existsb_eqb_in in E.
  pose proof (loop_reachable clock rand text w n_words
                (S (Z.to_nat n_words)) 0 _ (reach_init text w)) as R.
  destruct (loop _ _ _ _ _ _ _) as [st ticks|e st|]; try discriminate.
  intros [= <- <-]; split; [assumption|]; eauto 6.
Qed.

(** X9: the text a run prints begins with the start word, has at least one
    word and at most as many as requested (one, if less than one was
    requested), and consists of words of the corpus. *)
Theorem generated_text_shape (clock : nat -> bool) (rand : nat -> nat)
    (text : list string) (w : string) (n_words : Z) (g : list string)
    (flag : bool) :
  generate clock rand text w n_words = Generated g flag ->
  hd_error g = Some w
  /\ (1 <= Z.of_nat (List.length g) <= Z.max 1 n_words)%Z
  /\ forall x, In x g -> In x text.
Proof.
  intros G; apply generate_generated in G as (S & st & ticks & L & -> & _ & R).
  apply loop_finished in L as (i & extra & E & Len & Iter & _).
  cbn [init_state generated_text List.length] in E, Iter.
  split; [now rewrite E|]; split.
  - rewrite E; cbn [app List.length]; rewrite Len.
    destruct i as [|i]; [lia|].
    destruct (Iter i ltac:(lia)) as [_ B]; lia.
  - now apply (reachable_words text w).
Qed.

Lemma generated_text_shape_witness :
  hd_error ["the"; "cat"; "sat"] = Some "the"
  /\ (1 <= Z.of_nat (List.length ["the"; "cat"; "sat"]) <= Z.max 1 3)%Z
  /\ forall x, In x ["the"; "cat"; "sat"] -> In x example_corpus.
Proof.
  apply (generated_text_shape always_in_time first_index example_corpus
           "the" 3 _ false).
  reflexivity.
Defined.

(** X10: the time limit.  Once the clock, at its [k]-th reading (from 0),
    says the time is up, the text has at most [k + 1] words; and while the
    clock never says so, a run that prints a text prints exactly the
    requested number of words (one, if less was requested) and no time-limit
    message. *)
Theorem time_limit_bounds_text (clock : nat -> bool) (rand : nat -> nat)
    (text : list string) (w : string) (n_words : Z) (g : list string)
    (flag : bool) :
  generate clock rand text w n_words = Generated g flag ->
  (forall k, clock k = false -> List.length g <= k + 1)
  /\ ((forall k, clock k = true) ->
      Z.of_nat (List.length g) = Z.max 1 n_words /\ flag = false).
Proof.
  intros G; apply generate_generated in G as (S & st & ticks & L & -> & -> & R).
  apply loop_finished in L as (i & extra & E & Len & Iter & End).
  cbn [init_state generated_text List.length] in E, Iter.
  rewrite E in *; cbn [app List.length] in *; rewrite Len in *.
  split.
  - intros k C.
    destruct (Nat.le_gt_cases i k) as [Le|Gt]; [lia|].
    destruct (Iter k Gt) as [C' _]; simpl in C'; congruence.
  - intros Always; rewrite Always; split; [|reflexivity].
    destruct End as [[Ge _]|[_ [C _]]]; [|rewrite Always in C; discriminate].
    destruct i as [|i]; [lia|].
    destruct (Iter i ltac:(lia)) as [_ B]; lia.
Qed.

Lemma time_limit_bounds_text_witness :
  generate (fun k => k <? 2) first_index example_corpus "the" 9
  = Generated ["the"; "cat"; "sat"] true
  /\ List.length ["the"; "cat"; "sat"] <= 2 + 1.
Proof.
  split; [reflexivity|].
  apply (proj1 (time_limit_bounds_text (fun k => k <? 2) first_index
                  example_corpus "the" 9 _ true eq_refl) 2).
  reflexivity.
Defined.

Lemma reachable_nonempty (text : list string) (seed : string) (st : state) :
  reachable text seed st -> generated_text st <> [].
Proof.
  induction 1 as [|s0 s1 sample _ _ B]; [discriminate|].
  apply body_ok in B as [_ ->]; cbn [generated_text].
  now destruct (generated_text s0).
Qed.

Lemma last_in (l : list string) : l <> [] -> In (last l "") l.
Proof.
  intros N; destruct (@exists_last _ l N) as (l' & a & ->).
  rewrite last_last; apply in_or_app; right; now left.
Qed.

Lemma reachable_current_in_text (text : list string) (seed : string)
    (st : state) :
  In seed text -> reachable text seed st -> In (current_word st) text.
Proof.
  intros S R; apply (reachable_words text seed st S R).
  rewrite <- (inv_last _ _ (reachable_invariant _ _ _ R)).
  apply last_in; eapply reachable_nonempty; eauto.
Qed.

(** The only exception that ends the loop is the ValueError of the draw, at
    the last word of the corpus, which then occurs nowhere else. *)
Lemma loop_uncaught (clock : nat -> bool) (rand : nat -> nat)
    (text : list string) (seed : string) (n_words : Z) (fuel ticks : nat)
    (st st' : state) (e : exn) :
  In seed text ->
  reachable text seed st ->
  loop clock rand fuel text n_words ticks st = Uncaught e st' ->
  e = ValueError /\ forall b, ~ follows text (last text "") b.
Proof.
  intros S R L.
  pose proof (loop_reachable clock rand text seed n_words fuel ticks st R) as P.
  rewrite L in P; destruct P as (R' & -> & NF); split; [reflexivity|].
  rewrite <- (dead_end_is_last text (current_word st')); [assumption| |assumption].
  now apply (reachable_current_in_text text seed).
Qed.

(** X11: a run ends in a traceback only with the ValueError of the draw,
    never with a KeyError of the weight lookup, and only when more than one
    word was requested and the last word of the corpus occurs nowhere
    else. *)
Theorem traceback_only_at_dead_end (clock : nat -> bool) (rand : nat -> nat)
    (text : list string) (w : string) (n_words : Z) (e : exn) :
  generate clock rand text w n_words = Traceback e ->
  e = ValueError
  /\ (1 < n_words)%Z
  /\ forall b, ~ follows text (last text "") b.
Proof.
  unfold generate.
  destruct (existsb (String.eqb w) text) eqn:E; cbn [negb]; [|discriminate].
  apply existsb_eqb_in in E.
  destruct (Z_le_gt_dec n_words 1) as [Le|Gt].
  { rewrite loop_stops_at_once by assumption; discriminate. }
  destruct (loop _ _ _ _ _ _ _) as [st ticks|e' st|] eqn:L; try discriminate.
  intros [= <-].
  destruct (loop_uncaught _ _ _ _ _ _ _ _ _ _ E (reach_init text w) L)
    as [-> NF].
  split; [reflexivity|]; split; [lia|assumption].
Qed.

Lemma traceback_only_at_dead_end_witness :
  ValueError = ValueError
  /\ (1 < 2)%Z
  /\ forall b, ~ follows example_corpus (last example_corpus "") b.
Proof.
  apply (traceback_only_at_dead_end always_in_time first_index
           example_corpus "ran" 2 ValueError).
  reflexivity.
Defined.

(** X12: when the last word of the corpus has a successor somewhere (it
    also occurs earlier), no run ends in a traceback; and while the clock
    never says the time is up, the run prints exactly the requested number
    of words (one, if less was requested) without the time-limit message. *)
Theorem no_dead_end_completes (clock : nat -> bool) (rand : nat -> nat)
    (text : list string) (w : string) (n_words : Z) :
  In w text ->
  (exists b, follows text (last text "") b) ->
  (exists g flag, generate clock rand text w n_words = Generated g flag)
  /\ ((forall k, clock k = true) ->
      exists g,
        generate clock rand text w n_words = Generated g false
        /\ Z.of_nat (List.length g) = Z.max 1 n_words).
Proof.
  intros Hw [b F].
  assert (G : exists st ticks,
             loop clock rand (S (Z.to_nat n_words)) text n_words 0
                  (init_state w) = Finished st ticks).
  { destruct (loop _ _ _ _ _ _ _) as [st ticks|e st|] eqn:L; [eauto| |].
    - destruct (loop_uncaught _ _ _ _ _ _ _ _ _ _ Hw (reach_init text w) L)
        as [_ NF].
      exfalso; exact (NF b F).
    - exfalso; revert L; apply loop_fuel_enough.
      cbn [init_state generated_text List.length]; lia. }
  destruct G as (st & ticks & L).
  assert (E : generate clock rand text w n_words
              = Generated (generated_text st) (negb (clock ticks))).
  { unfold generate; apply existsb_eqb_in in Hw; rewrite Hw; cbn [negb].
    now rewrite L. }
  split; [eauto|].
  intros Always; rewrite E, Always; eexists; split; [reflexivity|].
  apply loop_finished in L as (i & extra & Eg & Len & Iter & End).
  cbn [init_state generated_text List.length] in Eg, Iter.
  rewrite Eg in *; cbn [app List.length] in *; rewrite Len in *.
  destruct End as [[Ge _]|[_ [C _]]]; [|rewrite Always in C; discriminate].
  destruct i as [|i]; [lia|].
  destruct (Iter i ltac:(lia)) as [_ B]; lia.
Qed.

Lemma no_dead_end_completes_witness :
  exists g,
    generate always_in_time (fun k => k) ["a"; "b"; "a"] "b" 6
    = Generated g false
    /\ Z.of_nat (List.length g) = Z.max 1 6.
Proof.
  refine (proj2 (no_dead_end_completes always_in_time (fun k => k)
                   ["a"; "b"; "a"] "b" 6 _ _) (fun _ => eq_refl)).
  - simpl; tauto.
  - exists "b"; now exists [], ["a"].
Defined.

(** ** The lazily built statistics *)

Lemma dict_in_set (w k : string) (c : nat) (d : dict string nat) :
  dict_in w (dict_set k c d) = true <-> w = k \/ dict_in w d = true.
Proof.
  unfold dict_in; destruct (String.eqb_spec w k) as [->|N].
  - rewrite dict_get_set_same; tauto.
  - rewrite dict_get_set_other by assumption.
    destruct (dict_get w d); intuition congruence.
Qed.

Lemma in_last_or_before (l : list string) (w : string) :
  l <> [] -> In w l <-> In w (removelast l) \/ w = last l "".
Proof.
  intros N; rewrite (app_removelast_last "" N) at 1.
  rewrite in_app_iff; simpl; intuition congruence.
Qed.

Lemma dict_get_in_dict_keys {K V : Type} `{Key K} (k : K) (v : V)
    (d : dict K V) :
  dict_get k d = Some v -> In k (dict_keys d).
Proof.
  intros G; apply dict_get_some_in in G.
  change k with (fst (k, v)); now apply in_map.
Qed.

(** The visited words are the generated words before the current one, and
    pairs are recorded only for visited words. *)
Lemma reachable_visited (text : list string) (seed : string) (st : state) :
  reachable text seed st ->
  (forall w, dict_in w (word_count st) = true
             <-> In w (removelast (generated_text st)))
  /\ (forall a b, In (a, b) (dict_keys (wordpair_count st)) ->
                  dict_in a (word_count st) = true).
Proof.
  induction 1 as [|st st' sample R [IHw IHp] B].
  - split; [intros w; simpl; split; [discriminate|tauto]|intros a b []].
  - pose proof (reachable_invariant _ _ _ R) as Inv.
    pose proof (reachable_nonempty _ _ _ R) as NE.
    apply body_ok in B as [_ ->]; cbn [generated_text word_count wordpair_count].
    rewrite removelast_last.
    assert (Gen : forall w, In w (generated_text st)
                    <-> dict_in w (word_count st) = true
                        \/ w = current_word st).
    { intros w; rewrite (in_last_or_before _ _ NE), (inv_last _ _ Inv), IHw.
      tauto. }
    destruct (dict_in (current_word st) (word_count st)) eqn:V.
    + rewrite build_statistics_visited by assumption; split; [|exact IHp].
      intros w; rewrite Gen; intuition congruence.
    + rewrite build_statistics_unvisited by assumption.
      cbn [word_count wordpair_count]; split.
      * intros w; rewrite Gen, dict_in_set; tauto.
      * intros a b I; apply dict_in_set.
        destruct (String.eqb_spec a (current_word st)) as [->|N];
          [now left|right].
        apply dict_get_in_keys in I as [c G].
        rewrite scan_list_other in G by exact N.
        eapply IHp, dict_get_in_dict_keys, G.
Qed.

(** X13: statistics are built lazily.  At every point of a run the keys of
    [word_count] are exactly the words generated before the current one, and
    [wordpair_count] holds pairs only of those words: nothing is counted
    for a word the generator has not expanded. *)
Theorem statistics_only_for_visited (text : list string) (seed : string)
    (st : state) :
  reachable text seed st ->
  (forall w, dict_in w (word_count st) = true
             <-> In w (removelast (generated_text st)))
  /\ (forall a b, In (a, b) (dict_keys (wordpair_count st)) ->
                  In a (removelast (generated_text st))).
Proof.
  intros R; destruct (reachable_visited _ _ _ R) as [W P].
  split; [exact W|]; intros a b I; apply W; eauto.
Qed.

Lemma statistics_only_for_visited_witness :
  exists st,
    iterate_body example_corpus [0; 0] (init_state "the") = Ok st
    /\ generated_text st = ["the"; "cat"; "sat"]
    /\ dict_keys (word_count st) = ["the"; "cat"]
    /\ forall a b, In (a, b) (dict_keys (wordpair_count st)) ->
                   In a ["the"; "cat"].
Proof.
  eexists; split; [vm_compute; reflexivity|].
  split; [reflexivity|]; split; [reflexivity|].
  refine (proj2 (statistics_only_for_visited example_corpus "the" _ _)).
  apply (iterate_body_reachable _ _ [0; 0]); vm_compute; reflexivity.
Defined.

(** ** The generator's statistics and the frequency tables *)

Lemma dict_get_count_of_some {K : Type} `{Key K} (k : K) (d : dict K nat) :
  (forall c, dict_get k d = Some c -> 1 <= c) ->
  dict_get k d = if count_of k d =? 0 then None else Some (count_of k d).
Proof.
  intros P; unfold count_of; destruct (dict_get k d) as [c|] eqn:G;
    [|reflexivity].
  specialize (P c eq_refl); destruct (Nat.eqb_spec c 0); [lia|reflexivity].
Qed.

(** The scan for [cw] counts, for every pair beginning with [cw], the places
    where the pair occurs, and nothing else. *)
Lemma scan_successors_count (text : list string) (cw w x : string)
    (d : dict (string * string) nat) :
  count_of (w, x) (scan_successors text cw d)
  = count_of (w, x) d
    + (if String.eqb cw w then pair_occurrences text w x else 0).
Proof.
  unfold scan_successors.
  rewrite (fold_count_of (fun i => (cw, nth (i + 1) text ""))
             (fun i => String.eqb (nth i text "") cw)).
  f_equal.
  destruct (String.eqb_spec cw w) as [->|N].
  - rewrite <- pair_positions; f_equal; apply filter_ext; intros i.
    change (keq (w, nth (i + 1) text "") (w, x))
      with (String.eqb w w && String.eqb (nth (i + 1) text "") x).
    now rewrite String.eqb_refl.
  - rewrite (filter_ext _ (fun _ => false)).
    + now induction (seq 0 (List.length text - 1)).
    + intros i.
      change (keq (cw, nth (i + 1) text "") (w, x))
        with (String.eqb cw w && String.eqb (nth (i + 1) text "") x).
      apply String.eqb_neq in N; rewrite N; apply andb_false_r.
Qed.

Lemma reachable_pair_counts (text : list string) (seed : string) (st : state) :
  reachable text seed st ->
  forall w x,
    count_of (w, x) (wordpair_count st)
    = if dict_in w (word_count st) then pair_occurrences text w x else 0.
Proof.
  induction 1 as [|st st' sample R IH B]; intros w x; [reflexivity|].
  apply body_ok in B as [_ ->]; cbn [word_count wordpair_count].
  destruct (dict_in (current_word st) (word_count st)) eqn:V.
  - rewrite build_statistics_visited by assumption; apply IH.
  - unfold build_statistics; rewrite V; cbn [negb word_count wordpair_count].
    rewrite scan_successors_count, IH.
    destruct (String.eqb_spec (current_word st) w) as [<-|N].
    + rewrite V; unfold dict_in; now rewrite dict_get_set_same.
    + unfold dict_in; rewrite dict_get_set_other by congruence.
      fold (dict_in w (word_count st)); lia.
Qed.

(** X14: the lazily built statistics agree with the tables of
    [get_frequencies] on the whole corpus.  In a run from a start word of
    the corpus, the count [word_count] holds for a visited word is that
    word's entry in the word table, and [wordpair_count] looks up every pair
    of a visited word as the pair table does. *)
Theorem statistics_agree_with_tables (text : list string) (seed : string)
    (st : state) (letter_freq : bool) (w : string) (c : nat) :
  In seed text ->
  reachable text seed st ->
  dict_get w (word_count st) = Some c ->
  dict_get w (wordcount_of (get_frequencies text LookAll letter_freq)) = Some c
  /\ forall x,
       dict_get (w, x) (wordpair_count st)
       = dict_get (w, x)
           (wordpaircount_of (get_frequencies text LookAll letter_freq)).
Proof.
  intros S R G.
  pose proof (reachable_invariant _ _ _ R) as Inv.
  assert (V : dict_in w (word_count st) = true)
    by (apply dict_in_true; eauto).
  assert (Ew : wordcount_of (get_frequencies text LookAll letter_freq)
               = dict_of_items (sorted_desc (count_words text LookAll))).
  { unfold get_frequencies; now destruct letter_freq. }
  assert (Ep : wordpaircount_of (get_frequencies text LookAll letter_freq)
               = dict_of_items (sorted_desc (count_wordpairs text LookAll))).
  { unfold get_frequencies; now destruct letter_freq. }
  split.
  - destruct (inv_visited _ _ Inv _ _ G) as [-> _].
    rewrite Ew, ranked_lookup by apply count_words_nodup.
    destruct (count_words_lookup text LookAll w) as [P C].
    rewrite (dict_get_count_of _ _ P), C; cbn [looked_for].
    assert (I : In w text).
    { apply (reachable_words text seed st S R), in_last_or_before;
        [eapply reachable_nonempty; eauto|left].
      now apply (reachable_visited _ _ _ R). }
    apply (count_occ_In string_dec) in I.
    destruct (Nat.eqb_spec (count_occ string_dec text w) 0); [lia|reflexivity].
  - intros x.
    rewrite Ep, ranked_lookup by apply count_wordpairs_nodup.
    destruct (count_wordpairs_lookup text LookAll w x) as [P C].
    rewrite (dict_get_count_of _ _ P), C; cbn [looked_for].
    rewrite dict_get_count_of_some
      by (intros c' G'; now apply (inv_pairs _ _ Inv) in G').
    now rewrite (reachable_pair_counts _ _ _ R), V.
Qed.

Lemma statistics_agree_with_tables_witness :
  exists st,
    iterate_body example_corpus [0] (init_state "the") = Ok st
    /\ dict_get "the" (wordcount_of (get_frequencies example_corpus LookAll true))
       = Some 3
    /\ forall x,
         dict_get ("the", x) (wordpair_count st)
         = dict_get ("the", x)
             (wordpaircount_of (get_frequencies example_corpus LookAll true)).
Proof.
  eexists; split; [vm_compute; reflexivity|].
  apply (statistics_agree_with_tables example_corpus "the" _ true "the" 3).
  - simpl; tauto.
  - apply (iterate_body_reachable _ _ [0]); vm_compute; reflexivity.
  - reflexivity.
Defined.

(** ** The command line *)

(** X15: the start word is case-insensitive: a run with a start word and a
    run with its lowercase form end the same way. *)
Theorem main_start_word_case (fs : string -> option (list string))
    (clock : nat -> bool) (rand : nat -> nat)
    (prog file_name start : string) (rest : list string) :
  main fs clock rand (prog :: file_name :: start :: rest)
  = main fs clock rand (prog :: file_name :: lower start :: rest).
Proof. unfold main; cbn [nth_error]; now rewrite lower_idempotent. Qed.

(** ** The report *)

Lemma lookup_key {K : Type} `{Key K} (k : K) (d : dict K nat) :
  In k (dict_keys d) -> lookup k d = Ok (count_of k d).
Proof.
  intros I; apply dict_get_in_keys in I as [v G].
  unfold lookup, count_of; now rewrite G.
Qed.

(** The countdown of the inner loop keeps the first [n] pairs. *)
Lemma successor_rows_firstn (n : nat) (pairs : list (string * string))
    (wpc : dict (string * string) nat) :
  (forall p, In p pairs -> In p (dict_keys wpc)) ->
  successor_rows (Z.of_nat (S n)) pairs wpc
  = Ok (map (fun key => SuccessorRow (snd key) (count_of key wpc))
            (firstn (S n) pairs)).
Proof.
  revert n; induction pairs as [|p pairs IH]; intros n All; [reflexivity|].
  cbn [successor_rows].
  rewrite lookup_key by (apply All; now left); cbn [bind].
  replace (Z.of_nat (S n) - 1)%Z with (Z.of_nat n) by lia.
  destruct n as [|n].
  - cbn [Z.of_nat Z.eqb firstn map]; now destruct pairs.
  - destruct (Z.eqb_spec (Z.of_nat (S n)) 0); [lia|].
    rewrite IH by (intros q Hq; apply All; now right).
    reflexivity.
Qed.

Lemma filter_keys_in (wpc : dict (string * string) nat) (w : string)
    (p : string * string) :
  In p (filter (fun key => String.eqb (fst key) w) (dict_keys wpc)) ->
  In p (dict_keys wpc).
Proof. intros I; now apply filter_In in I. Qed.

(** The countdown of the outer loop keeps the first [n] words; a blank line
    follows every block but the [n]-th. *)
Lemma word_rows_firstn (n : nat) (items : list (string * nat))
    (wc : dict string nat) (wpc : dict (string * string) nat) :
  (forall kv, In kv items -> dict_get (fst kv) wc = Some (snd kv)) ->
  word_rows (Z.of_nat (S n)) items wc wpc
  = Ok (flat_map (fun kv => word_block wpc kv ++ [Blank]) (firstn n items)
        ++ match nth_error items n with
           | Some kv => word_block wpc kv
           | None => []
           end).
Proof.
  revert n; induction items as [|kv items IH]; intros n All.
  - now destruct n.
  - cbn [word_rows].
    unfold lookup; rewrite (All kv (or_introl eq_refl)); cbn [bind].
    change 3%Z with (Z.of_nat 3).
    rewrite successor_rows_firstn by apply filter_keys_in; cbn [bind].
    replace (Z.of_nat (S n) - 1)%Z with (Z.of_nat n) by lia.
    destruct n as [|n].
    + cbn [Z.of_nat Z.eqb firstn flat_map nth_error app]; reflexivity.
    + destruct (Z.eqb_spec (Z.of_nat (S n)) 0); [lia|].
      rewrite IH by (intros q Hq; apply All; now right).
      cbn [bind firstn flat_map nth_error].
      unfold word_block at 2; cbn [app].
      now rewrite <- !app_assoc.
Qed.

Lemma combine_keys_values {K V : Type} (d : dict K V) :
  combine (dict_keys d) (dict_values d) = d.
Proof.
  unfold dict_keys, dict_values.
  induction d as [|[k v] d IH]; [reflexivity|].
  cbn [map combine fst snd]; now rewrite IH.
Qed.

(** X16: the report never fails, and shows: the number of words and the
    number of distinct words; every letter with its count; then the first
    five words of the word table, each with its count and its first three
    pairs of the pair table.  A blank line follows each of the first four
    word blocks, also when it is the last one shown. *)
Theorem report_contents (words : list string) :
  let f := get_frequencies words LookAll true in
  report words
  = Ok ([SummaryTotal (List.length words);
         SummaryUnique (List.length (first_occurrences words))]
        ++ map (fun i => LetterRow (fst i) (snd i)) (lettercount_of f)
        ++ flat_map (fun kv => word_block (wordpaircount_of f) kv ++ [Blank])
             (firstn 4 (wordcount_of f))
        ++ match nth_error (wordcount_of f) 4 with
           | Some kv => word_block (wordpaircount_of f) kv
           | None => []
           end).
Proof.
  cbv zeta; unfold report.
  cbn [get_frequencies lettercount_of wordcount_of wordpaircount_of].
  pose proof (count_words_nodup words LookAll) as ND.
  destruct (ranked_dict _ ND) as [E _].
  change 5%Z with (Z.of_nat 5).
  rewrite word_rows_firstn.
  - cbn [bind]; rewrite combine_keys_values.
    do 3 f_equal.
    rewrite E.
    rewrite (Permutation_length (sorted_desc_perm _)).
    change (List.length (count_words words LookAll))
      with (List.length (A := string * nat) (count_words words LookAll)).
    rewrite <- (length_map fst).
    change (map fst (count_words words LookAll))
      with (dict_keys (count_words words LookAll)).
    rewrite count_words_keys; cbn [looked_for].
    now rewrite filter_all.
  - intros [k v] I; apply dict_get_in_nodup; [|exact I].
    rewrite E; eapply Permutation_NoDup; [|exact ND].
    unfold dict_keys; apply Permutation_map; symmetry; apply sorted_desc_perm.
Qed.

Lemma pair_occurrences_le_followed (text : list string) (a b : string) :
  pair_occurrences text a b <= followed_occurrences text a.
Proof.
  induction text as [|x t IH]; [simpl; lia|].
  destruct t as [|y t]; [simpl; lia|].
  rewrite followed_occurrences_cons.
  change (pair_occurrences (x :: y :: t) a b)
    with ((if String.eqb x a && String.eqb y b then 1 else 0)
          + pair_occurrences (y :: t) a b).
  destruct (String.eqb x a), (String.eqb y b); cbn [andb]; lia.
Qed.

(** X17: the two tables fit together.  Whenever a pair is a key of the pair
    table, its first word is a key of the word table, and the count of the
    pair is at most the count of the word. *)
Theorem pair_count_at_most_word_count (words : list string)
    (look_for : look_for_arg) (letter_freq : bool) (a b : string) (n : nat) :
  dict_get (a, b)
    (wordpaircount_of (get_frequencies words look_for letter_freq)) = Some n ->
  exists m,
    dict_get a (wordcount_of (get_frequencies words look_for letter_freq))
    = Some m
    /\ n <= m.
Proof.
  assert (Ew : wordcount_of (get_frequencies words look_for letter_freq)
               = dict_of_items (sorted_desc (count_words words look_for))).
  { unfold get_frequencies; now destruct letter_freq. }
  assert (Ep : wordpaircount_of (get_frequencies words look_for letter_freq)
               = dict_of_items (sorted_desc (count_wordpairs words look_for))).
  { unfold get_frequencies; now destruct letter_freq. }
  rewrite Ew, Ep, !ranked_lookup
    by (apply count_words_nodup || apply count_wordpairs_nodup).
  destruct (count_wordpairs_lookup words look_for a b) as [Pp Cp].
  destruct (count_words_lookup words look_for a) as [Pw Cw].
  rewrite (dict_get_count_of _ _ Pp), (dict_get_count_of _ _ Pw), Cp, Cw.
  pose proof (pair_occurrences_le_followed words a b) as L1.
  pose proof (followed_occurrences_le_count words a) as L2.
  destruct (looked_for look_for a); [|discriminate].
  destruct (Nat.eqb_spec (pair_occurrences words a b) 0); [discriminate|].
  intros [= <-].
  exists (count_occ string_dec words a).
  destruct (Nat.eqb_spec (count_occ string_dec words a) 0); [lia|].
  split; [reflexivity|lia].
Qed.

Lemma pair_count_at_most_word_count_witness :
  exists m,
    dict_get "the" (wordcount_of (get_frequencies example_corpus LookAll true))
    = Some m
    /\ 2 <= m.
Proof.
  apply (pair_count_at_most_word_count example_corpus LookAll true
           "the" "cat" 2).
  reflexivity.
Defined.

(** X18: every two consecutive words of the text a run prints are
    consecutive somewhere in the corpus. *)
Theorem printed_text_is_chain (clock : nat -> bool) (rand : nat -> nat)
    (text : list string) (w : string) (n_words : Z) (g : list string)
    (flag : bool) :
  generate clock rand text w n_words = Generated g flag ->
  forall a b, follows g a b ->
    follows text a b /\ 0 < pair_occurrences text a b.
Proof.
  intros G a b F.
  pose proof (generate_chain _ _ _ _ _ _ _ G a b F) as F'.
  split; [assumption|now apply pair_occurrences_follows].
Qed.

Lemma printed_text_is_chain_witness :
  follows example_corpus "cat" "sat"
  /\ 0 < pair_occurrences example_corpus "cat" "sat".
Proof.
  apply (printed_text_is_chain always_in_time first_index example_corpus
           "the" 3 ["the"; "cat"; "sat"] false eq_refl).
  now exists ["the"], [].
Defined.

(** ** The successors the report shows *)

Lemma strongly_sorted_filter {A : Type} (R : A -> A -> Prop) (P : A -> bool)
    (l : list A) :
  StronglySorted R l -> StronglySorted R (filter P l).
Proof.
  induction 1 as [|x l _ IH F]; cbn [filter]; [constructor|].
  destruct (P x); [|assumption].
  constructor; [assumption|].
  apply Forall_forall; intros y I; apply filter_In in I as [I _].
  revert y I; now apply Forall_forall.
Qed.

Lemma in_skipn_in {A : Type} (n : nat) (l : list A) (y : A) :
  In y (skipn n l) -> In y l.
Proof.
  revert l; induction n as [|n IH]; intros l; [trivial|].
  destruct l as [|x l]; [trivial|]; cbn [skipn]; intros I; right; auto.
Qed.

Lemma strongly_sorted_split {A : Type} (R : A -> A -> Prop) (n : nat)
    (l : list A) :
  StronglySorted R l ->
  forall x y, In x (firstn n l) -> In y (skipn n l) -> R x y.
Proof.
  intros S; revert n; induction S as [|z l S IH F]; intros n x y.
  - now destruct n.
  - destruct n as [|n]; [intros []|].
    cbn [firstn skipn]; intros [<-|Ix] Iy.
    + eapply Forall_forall; [exact F|].
      eapply in_skipn_in; exact Iy.
    + eapply IH; eauto.
Qed.

(** The keys of a ranked table are ranked by their counts. *)
Lemma ranked_keys_by {K : Type} (c : K -> nat) (l : list (K * nat)) :
  (forall kv, In kv l -> c (fst kv) = snd kv) ->
  descending l ->
  StronglySorted (fun p q => c q <= c p) (map fst l).
Proof.
  intros C S; unfold descending in S.
  induction S as [|kv l S IH F]; [constructor|].
  cbn [map]; constructor.
  - apply IH; intros kv' I; apply C; now right.
  - apply Forall_forall; intros q Iq.
    apply in_map_iff in Iq as (kv' & <- & I').
    rewrite (C kv (or_introl eq_refl)), (C kv' (or_intror I')).
    revert kv' I'; now apply Forall_forall.
Qed.

Lemma ranked_keys {K : Type} `{Key K} (d : dict K nat) :
  NoDup (dict_keys d) ->
  descending d ->
  StronglySorted (fun p q => count_of q d <= count_of p d) (dict_keys d).
Proof.
  intros ND S; apply (ranked_keys_by (fun k => count_of k d)); [|assumption].
  intros [k v] I; unfold count_of.
  now rewrite (dict_get_in_nodup _ _ _ ND I).
Qed.

(** X19: the successors the report shows for a word are its most frequent
    ones.  The pairs of a word are listed in the pair table by descending
    count, so each of the first three has a count at least that of every
    pair of the word that is not shown. *)
Theorem shown_successors_are_top (words : list string)
    (look_for : look_for_arg) (letter_freq : bool) (w : string) :
  let wpc := wordpaircount_of (get_frequencies words look_for letter_freq) in
  let pairs :=
    filter (fun key => String.eqb (fst key) w) (dict_keys wpc) in
  StronglySorted (fun p q => count_of q wpc <= count_of p wpc) pairs
  /\ forall p q, In p (firstn 3 pairs) -> In q (skipn 3 pairs) ->
       count_of q wpc <= count_of p wpc.
Proof.
  cbv zeta.
  assert (Ep : wordpaircount_of (get_frequencies words look_for letter_freq)
               = dict_of_items (sorted_desc (count_wordpairs words look_for))).
  { unfold get_frequencies; now destruct letter_freq. }
  pose proof (count_wordpairs_nodup words look_for) as ND.
  destruct (ranked_dict _ ND) as [E D].
  rewrite Ep.
  assert (S : StronglySorted
                (fun p q =>
                   count_of q (dict_of_items
                                 (sorted_desc (count_wordpairs words look_for)))
                   <= count_of p (dict_of_items
                                    (sorted_desc (count_wordpairs words look_for))))
                (filter (fun key => String.eqb (fst key) w)
                   (dict_keys (dict_of_items
                                 (sorted_desc (count_wordpairs words look_for)))))).
  { apply strongly_sorted_filter, ranked_keys; [|assumption].
    rewrite E; eapply Permutation_NoDup; [|exact ND].
    unfold dict_keys; apply Permutation_map; symmetry; apply sorted_desc_perm. }
  split; [exact S|].
  intros p q; apply (strongly_sorted_split _ 3 _ S).
Qed.

Lemma shown_successors_are_top_witness :
  let words := ["a"; "b"; "a"; "b"; "a"; "c"; "a"; "d"; "a"; "e"] in
  let wpc := wordpaircount_of (get_frequencies words LookAll true) in
  count_of ("a", "e") wpc <= count_of ("a", "b") wpc.
Proof.
  cbv zeta.
  apply (proj2 (shown_successors_are_top
                  ["a"; "b"; "a"; "b"; "a"; "c"; "a"; "d"; "a"; "e"]
                  LookAll true "a") ("a", "b") ("a", "e"));
    vm_compute; tauto.
Defined.
